(** * mgosession: a bounded pool of multiplexed MongoDB sessions

    Shallow embedding of [vendor/github.com/juju/mgosession/session.go].

    The pool is a Go struct reached through a pointer and mutated in
    place; every exported method takes [p.mu] for its whole body, so each
    method is one atomic transition of the pair (pool struct, outside
    world).  The outside world records what the pool does to the
    [*mgo.Session] values it handles and to the logger it is given. *)

From Stdlib Require Import ZArith String DecimalString List Lia Bool.
From stdpp Require Import base option list.
Import ListNotations.

Local Open Scope Z_scope.
Local Open Scope string_scope.

(** ** Go integers *)

(** [int] is 64 bits wide on the platforms the program is built for. *)
Definition int_min : Z := - 2 ^ 63.
Definition int_max : Z := 2 ^ 63 - 1.

Definition is_int (z : Z) : Prop := int_min <= z <= int_max.

(** Two's complement wrap-around of an [int] result. *)
Definition wrap_int (z : Z) : Z := (z + 2 ^ 63) mod 2 ^ 64 - 2 ^ 63.

(** [fmt.Sprintf("%d", z)]. *)
Definition fmt_d (z : Z) : string := NilZero.string_of_int (Z.to_int z).

(** ** Panics and outcomes *)

Inductive Panic : Type :=
| PanicString (msg : string)          (* panic("...") *)
| IndexOutOfRange (i len : Z)         (* runtime: index out of range *)
| MakesliceLenOutOfRange              (* runtime: makeslice: len out of range *)
| IntegerDivideByZero                 (* runtime: integer divide by zero *)
| NilDereference.                     (* runtime: nil pointer dereference *)

Inductive Outcome (A : Type) : Type :=
| Ok (a : A)
| Panicked (e : Panic).
Arguments Ok {A} a.
Arguments Panicked {A} e.

Definition returns {A} (o : Outcome A) : bool :=
  match o with Ok _ => true | Panicked _ => false end.

(** A computation over a state [S] that either returns or panics.  The
    state survives a panic: Go unwinds the stack, runs the deferred
    [Unlock], and leaves whatever was written before the panic. *)
Definition M (S A : Type) : Type := S -> Outcome A * S.

Definition ret {S A} (a : A) : M S A := fun s => (Ok a, s).

Definition bind {S A B} (m : M S A) (k : A -> M S B) : M S B :=
  fun s => match m s with
           | (Ok a, s') => k a s'
           | (Panicked e, s') => (Panicked e, s')
           end.

Definition panic {S A} (e : Panic) : M S A := fun s => (Panicked e, s).

Definition gets {S A} (f : S -> A) : M S A := fun s => (Ok (f s), s).

Definition modify {S} (f : S -> S) : M S unit := fun s => (Ok tt, f s).

Declare Scope go_scope.
Delimit Scope go_scope with go.
Notation "x <- m ;; k" := (bind m (fun x => k))
  (at level 100, m at next level, right associativity) : go_scope.
Notation "m ;; k" := (bind m (fun _ => k))
  (at level 100, right associativity) : go_scope.
Local Open Scope go_scope.

(** Go's [a % b] on [int]: truncated remainder, panics on a zero divisor. *)
Definition go_rem {S} (a b : Z) : M S Z :=
  if Z.eqb b 0 then panic IntegerDivideByZero else ret (wrap_int (Z.rem a b)).

(** ** The outside world: mgo sessions and loggers *)

Module mgo.

(** A [*mgo.Session] is known to the pool only by its identity. *)
Definition Session : Type := nat.

Inductive Event : Type :=
| EvCopy (src new : Session)
| EvClone (src new : Session)
| EvPing (s : Session) (failed : bool)
| EvClose (s : Session)
| EvInfo (sink : nat) (msg : string)
| EvDebug (sink : nat) (msg : string).

(** [next] is the identity the next allocated session will get;
    [trace] is everything done so far, oldest first. *)
Record World : Type := mkWorld { next : Session; trace : list Event }.

Definition emit (e : Event) (w : World) : World :=
  mkWorld (next w) (trace w ++ [e]).

Section Ops.
(** Whether a ping fails is decided by the backend; it may depend on
    everything that happened before. *)
Variable ping_fails : list Event -> Session -> bool.

(** Modelled from the spec: [mgo.Session.Copy] is outside the
    repository's own code; "copy — independent new connection". *)
Definition Copy (s : Session) : M World Session :=
  fun w => (Ok (next w), mkWorld (S (next w)) (trace w ++ [EvCopy s (next w)])).

(** Modelled from the spec: [mgo.Session.Clone], "clone — lightweight
    handle sharing the underlying connection"; a new handle value. *)
Definition Clone (s : Session) : M World Session :=
  fun w => (Ok (next w), mkWorld (S (next w)) (trace w ++ [EvClone s (next w)])).

(** Modelled from the spec: [mgo.Session.Ping], "round-trip liveness
    check, fails-soft, returns a boolean/error rather than throwing".
    The result is [true] when the returned error is non-nil. *)
Definition Ping (s : Session) : M World bool :=
  fun w => let r := ping_fails (trace w) s in (Ok r, emit (EvPing s r) w).

(** Modelled from the spec: [mgo.Session.Close]. *)
Definition Close (s : Session) : M World unit :=
  fun w => (Ok tt, emit (EvClose s) w).
End Ops.

End mgo.

(** ** Logger *)

(** A [Logger] interface value: the nil interface, the package's own
    [nullLogger{}], or a caller's implementation writing to some sink. *)
Inductive Logger : Type :=
| nilLogger
| nullLogger
| sinkLogger (sink : nat).

Definition Logger_Debug (l : Logger) (message : string) : M mgo.World unit :=
  match l with
  | nilLogger => panic NilDereference
  | nullLogger => ret tt
  | sinkLogger k => modify (mgo.emit (mgo.EvDebug k message))
  end.

Definition Logger_Info (l : Logger) (message : string) : M mgo.World unit :=
  match l with
  | nilLogger => panic NilDereference
  | nullLogger => ret tt
  | sinkLogger k => modify (mgo.emit (mgo.EvInfo k message))
  end.

(** [if logger == nil { logger = nullLogger{} }] *)
Definition or_nullLogger (logger : Logger) : Logger :=
  match logger with nilLogger => nullLogger | l => l end.

(** ** The pool *)

(** Modelled from the spec: [tomb.Tomb] (gopkg.in/tomb.v2) is the
    "cancellation signal + completion handle for the health monitor
    task": alive while the pinger runs, dying once killed, dead once the
    pinger has returned. *)
Inductive Tomb : Type := Alive | Dying | Dead.

Record Pool : Type := mkPool {
  tomb : Tomb;
  sessions : list (option mgo.Session);   (* []*mgo.Session, nil = None *)
  sessionIndex : Z;
  session : mgo.Session;
  closed : bool
}.

Definition set_tomb (t : Tomb) (p : Pool) : Pool :=
  mkPool t (sessions p) (sessionIndex p) (session p) (closed p).
Definition set_sessions (l : list (option mgo.Session)) (p : Pool) : Pool :=
  mkPool (tomb p) l (sessionIndex p) (session p) (closed p).
Definition set_sessionIndex (i : Z) (p : Pool) : Pool :=
  mkPool (tomb p) (sessions p) i (session p) (closed p).
Definition set_closed (b : bool) (p : Pool) : Pool :=
  mkPool (tomb p) (sessions p) (sessionIndex p) (session p) b.

(** The heap as a pool method sees it: the struct behind [p] and the world. *)
Definition St : Type := Pool * mgo.World.

Definition in_world {A} (m : M mgo.World A) : M St A :=
  fun st => let '(o, w) := m (snd st) in (o, (fst st, w)).

Definition field {A} (f : Pool -> A) : M St A := gets (fun st => f (fst st)).

Definition assign (f : Pool -> Pool) : M St unit :=
  modify (fun st => (f (fst st), snd st)).

(** [len(p.sessions)] *)
Definition len_sessions : M St Z := field (fun p => Z.of_nat (length (sessions p))).

(** [p.sessions[i]] as a value: bounds-checked read. *)
Definition read_slot (i : Z) : M St (option mgo.Session) :=
  l <- field sessions ;;
  if (Z.ltb i 0 || Z.leb (Z.of_nat (length l)) i)%bool
  then panic (IndexOutOfRange i (Z.of_nat (length l)))
  else match l !! Z.to_nat i with
       | Some s => ret s
       | None => panic (IndexOutOfRange i (Z.of_nat (length l)))
       end.

(** [p.sessions[i] = v]: bounds-checked write. *)
Definition write_slot (i : Z) (v : option mgo.Session) : M St unit :=
  l <- field sessions ;;
  if (Z.ltb i 0 || Z.leb (Z.of_nat (length l)) i)%bool
  then panic (IndexOutOfRange i (Z.of_nat (length l)))
  else assign (set_sessions (<[Z.to_nat i := v]> l)).

(** The Go runtime's limits on the 64-bit platforms the program is built
    for (runtime/malloc.go and runtime/slice.go, not part of the
    repository): a pointer takes 8 bytes, and no allocation may exceed
    [maxAlloc] = 2^48 bytes. *)
Definition ptr_size : Z := 8.
Definition maxAlloc : Z := 2 ^ 48.

(** [make([]*mgo.Session, n)]: n nil pointers.  [makeslice] panics with
    "len out of range" when the length is negative or when the slice
    would take more than [maxAlloc] bytes (which covers the overflow of
    [n * 8]).  Running out of memory below that limit ends the process
    with a fatal error and is, like any exhaustion of the machine, not
    modelled. *)
Definition make_sessions {S} (n : Z) : M S (list (option mgo.Session)) :=
  if (Z.ltb n 0 || Z.ltb maxAlloc (n * ptr_size))%bool
  then panic MakesliceLenOutOfRange
  else ret (replicate (Z.to_nat n) None).

Section Pool.
Variable ping_fails : list mgo.Event -> mgo.Session -> bool.

Abbreviation Copy := mgo.Copy.
Abbreviation Clone := mgo.Clone.
Abbreviation Ping := (mgo.Ping ping_fails).

(** [func (p *Pool) Session(logger Logger) *mgo.Session] *)
Definition Session (logger : Logger) : M St mgo.Session :=
  let logger := or_nullLogger logger in
  is_closed <- field closed ;;
  if is_closed then panic (PanicString "Session called on closed Pool") else
  i <- field sessionIndex ;;
  s <- read_slot i ;;
  s <- match s with
       | None =>
           in_world (Logger_Info logger ("creating new session; index " ++ fmt_d i)) ;;
           base <- field session ;;
           s <- in_world (Copy base) ;;
           in_world (Ping s) ;;
           write_slot i (Some s) ;;
           ret s
       | Some s =>
           in_world (Logger_Debug logger ("reusing session; index " ++ fmt_d i)) ;;
           ret s
       end ;;
  i <- field sessionIndex ;;
  n <- len_sessions ;;
  r <- go_rem (wrap_int (i + 1)) n ;;
  assign (set_sessionIndex r) ;;
  in_world (Clone s).

(** [func (p *Pool) closeSessions()]: the [range] loop, one slot at a
    time; [todo] are the indices still to visit. *)
Fixpoint closeSessions_from (todo : list nat) : M St unit :=
  match todo with
  | [] => ret tt
  | i :: rest =>
      s <- read_slot (Z.of_nat i) ;;
      match s with
      | Some s => in_world (mgo.Close s) ;; write_slot (Z.of_nat i) None
      | None => ret tt
      end ;;
      closeSessions_from rest
  end.

Definition closeSessions : M St unit :=
  l <- field sessions ;;
  closeSessions_from (seq 0 (length l)).

(** [func (p *Pool) Reset()] *)
Definition Reset : M St unit := closeSessions.

(** [p.tomb.Kill(nil)] and [p.tomb.Wait()].  [Wait] returns once the
    pinger has seen the dying tomb and returned. *)
Definition tomb_Kill (t : Tomb) : Tomb :=
  match t with Alive => Dying | t => t end.
Definition tomb_Wait (t : Tomb) : Tomb :=
  match t with Dying => Dead | t => t end.

(** [func (p *Pool) Close()] *)
Definition Close : M St unit :=
  assign (fun p => set_tomb (tomb_Kill (tomb p)) p) ;;
  assign (fun p => set_tomb (tomb_Wait (tomb p)) p) ;;
  is_closed <- field closed ;;
  if is_closed then ret tt else
  assign (set_closed true) ;;
  closeSessions ;;
  base <- field session ;;
  in_world (mgo.Close base).

(** The body of the pinger's loop after the timer case of the [select]. *)
Definition pinger_iteration (logger : Logger) : M St unit :=
  session <- Session logger ;;
  failed <- in_world (Ping session) ;;
  _ <- (if failed then Reset else ret tt) ;;
  in_world (mgo.Close session).

(** Which case of the [select] is taken each time round the loop. *)
Inductive Select : Type := DyingCase | ClockCase.

Inductive PingerState : Type :=
| Returned       (* return nil *)
| Waiting.       (* blocked in the select *)

(** [func (p *Pool) pinger(logger Logger) error], driven by the
    sequence of [select] outcomes. *)
Fixpoint pinger (wake : list Select) (logger : Logger) : M St PingerState :=
  match wake with
  | [] => ret Waiting
  | DyingCase :: _ => ret Returned
  | ClockCase :: rest => pinger_iteration logger ;; pinger rest logger
  end.

(** [func NewPool(logger Logger, s *mgo.Session, maxSessions int) *Pool].
    The slice is made before the base session is copied.  [p.tomb.Go]
    starts the pinger, which parks in its [select]; the goroutine keeps
    [or_nullLogger logger] for its [Session] calls (see [step]). *)
Definition NewPool (logger : Logger) (s : mgo.Session) (maxSessions : Z)
  : M mgo.World Pool :=
  slots <- make_sessions maxSessions ;;
  base <- Copy s ;;
  ret (mkPool Alive slots 0 base false).

End Pool.

(** ** Calls on a pool, one after the other *)

(** What may happen to a pool next: a caller's method call, or the
    pinger's timer firing (only while the tomb is alive: [Close] has the
    pinger stopped before it touches the pool). *)
Inductive Call : Type :=
| CallSession (logger : Logger)
| CallReset
| CallClose
| ClockTick.

Section Runs.
Variable ping_fails : list mgo.Event -> mgo.Session -> bool.
Variable logger0 : Logger.

(** A panic is left to the caller; the heap is as the panic left it. *)
Definition step (st : St) (c : Call) : St :=
  match c with
  | CallSession logger => snd (Session ping_fails logger st)
  | CallReset => snd (Reset st)
  | CallClose => snd (Close st)
  | ClockTick =>
      match tomb (fst st) with
      | Alive => snd (pinger_iteration ping_fails (or_nullLogger logger0) st)
      | _ => st
      end
  end.

Definition run (cs : list Call) (st : St) : St := fold_left step cs st.


(** [Session] called once per logger of the list, results in order. *)
Fixpoint Sessions (loggers : list Logger) : M St (list mgo.Session) :=
  match loggers with
  | [] => ret []
  | l :: rest =>
      h <- Session ping_fails l ;;
      hs <- Sessions rest ;;
      ret (h :: hs)
  end.
End Runs.


(** ** Reading traces *)

(** What a [Session] call does with its slot, as its log line tells. *)
Inductive Access : Type :=
| Creating (index : Z)
| Reusing (index : Z).

Definition access_events (logger : Logger) (a : Access) : list mgo.Event :=
  match logger, a with
  | sinkLogger k, Creating i =>
      [mgo.EvInfo k ("creating new session; index " ++ fmt_d i)]
  | sinkLogger k, Reusing i =>
      [mgo.EvDebug k ("reusing session; index " ++ fmt_d i)]
  | _, _ => []
  end.

(** The [Close] events of a slice's non-nil entries, in slot order. *)
Definition closes_of (l : list (option mgo.Session)) : list mgo.Event :=
  flat_map (fun o => match o with Some s => [mgo.EvClose s] | None => [] end) l.

(** The events a world has seen beyond those of an earlier world. *)
Definition since (w0 w : mgo.World) : list mgo.Event :=
  drop (length (mgo.trace w0)) (mgo.trace w).

Definition is_log (e : mgo.Event) : bool :=
  match e with mgo.EvInfo _ _ | mgo.EvDebug _ _ => true | _ => false end.

Definition is_copy (e : mgo.Event) : bool :=
  match e with mgo.EvCopy _ _ => true | _ => false end.

(** The log lines of a trace. *)
Definition logged (t : list mgo.Event) : list mgo.Event := List.filter is_log t.

Definition all_nil (l : list (option mgo.Session)) : Prop := Forall (eq None) l.

Definition populated (l : list (option mgo.Session)) : nat :=
  length (List.filter (fun o : option mgo.Session => match o with Some _ => true | None => false end) l).

(** The cursor as [Session] leaves it. *)
Definition next_index (p : Pool) : Z :=
  wrap_int (Z.rem (wrap_int (sessionIndex p + 1)) (Z.of_nat (length (sessions p)))).

(** ** Invariants *)

(** The cursor points into the slice (or the slice is empty and the
    cursor is 0), and the slice is no longer than an [int] can count. *)
Definition cursor_ok (p : Pool) : Prop :=
  Z.of_nat (length (sessions p)) <= int_max /\
  (0 <= sessionIndex p < Z.of_nat (length (sessions p)) \/
   (sessions p = [] /\ sessionIndex p = 0)).

(** Every session the pool holds has been allocated. *)
Definition allocated (st : St) : Prop :=
  (session (fst st) < mgo.next (snd st))%nat /\
  forall i s, sessions (fst st) !! i = Some (Some s) -> (s < mgo.next (snd st))%nat.

(** A closed pool holds no session and its pinger is gone. *)
Definition closed_ok (p : Pool) : Prop :=
  closed p = true -> all_nil (sessions p) /\ tomb p = Dead.

Definition inv (st : St) : Prop :=
  cursor_ok (fst st) /\ allocated st /\ closed_ok (fst st).

(** After [k] calls on a fresh pool of [n] slots: open, cursor at
    [k mod n], the first [min k n] slots filled and the others nil. *)
Definition filled (n : Z) (k : nat) (p : Pool) : Prop :=
  closed p = false /\
  Z.of_nat (length (sessions p)) = n /\
  sessionIndex p = Z.of_nat k mod n /\
  (forall j, (j < length (sessions p))%nat -> (k <= j)%nat ->
             sessions p !! j = Some None) /\
  (forall j, (j < length (sessions p))%nat -> (j < k)%nat ->
             exists c, sessions p !! j = Some (Some c)).

(** A backend whose pings never fail, and one whose pings always fail. *)
Definition never_fails : list mgo.Event -> mgo.Session -> bool := fun _ _ => false.
Definition always_fails : list mgo.Event -> mgo.Session -> bool := fun _ _ => true.

(** The world as [main] has it when it calls [NewPool]: one session,
    number 0, dialled and nothing else done. *)
Definition dialled : mgo.World := mgo.mkWorld 1%nat [].

(** The pool [main] would get for [MONGODB_CONNECTION_POOL=3], and the
    world right after [NewPool]. *)
Definition fresh3 : St :=
  (mkPool Alive [None; None; None] 0 1%nat false,
   mgo.mkWorld 2%nat [mgo.EvCopy 0%nat 1%nat]).

(** [fresh3] after two [Session(nil)] calls with pings that succeed: two
    slots filled, the cursor at 2. *)
Definition busy3 : St :=
  (mkPool Alive [Some 2%nat; Some 4%nat; None] 2 1%nat false,
   mgo.mkWorld 6%nat
     [mgo.EvCopy 0 1; mgo.EvCopy 1 2; mgo.EvPing 2 false; mgo.EvClone 2 3;
      mgo.EvCopy 1 4; mgo.EvPing 4 false; mgo.EvClone 4 5]%nat).

(** A closed pool whose pinger has returned. *)
Definition shut (p : Pool) : Prop := closed p = true /\ tomb p = Dead.

(** ** The program's [main] *)

(** The process environment as [os.Getenv] reads it: the empty string
    for a variable that is not set. *)
Definition Env : Type := string -> string.

(** How [main] ends: it returns, or [log.Fatal] exits the process
    (deferred calls do not run), or a goroutine panics. *)
Inductive Exit : Type :=
| Returns
| Fatal (message : string)
| Panics (e : Panic).

Section Main.
Variable ping_fails : list mgo.Event -> mgo.Session -> bool.

(** Modelled from the spec: [godotenv.Load], [mgo.Dial] and
    [strconv.Atoi] are outside the repository.  [Load] gives the
    environment as the file leaves it, or fails; [Dial] gives an error
    message, or succeeds and allocates a session; [Atoi] gives an [int],
    or fails. *)
Variable Load : string -> Env -> option Env.
Variable Dial_error : string -> option string.
Variable Atoi : string -> option Z.

(** [func main()].  [ticks] is how often the pinger's timer fires before
    [main] returns.  [mux.NewRouter], [http.Handle] and [log.Println] do
    nothing to sessions and are left out. *)
Definition main (env : Env) (ticks : nat) (w : mgo.World) : Exit * mgo.World :=
  let e := env "BOOKMARK_ENV" in
  let e := if String.eqb e "" then "dev" else e in
  match Load ("config/" ++ e ++ ".env") env with
  | None => (Fatal "Error loading .env file", w)
  | Some env =>
      match Dial_error (env "MONGODB_HOST") with
      | Some message => (Fatal message, w)
      | None =>
          let session := mgo.next w in
          let w := mgo.mkWorld (S (mgo.next w)) (mgo.trace w) in
          (* defer session.Close() *)
          let cPool := match Atoi (env "MONGODB_CONNECTION_POOL") with
                       | Some n => n
                       | None => 10
                       end in
          match NewPool nilLogger session cPool w with
          | (Panicked err, w) => (Panics err, snd (mgo.Close session w))
          | (Ok mPool, w) =>
              (* defer mPool.Close() *)
              match pinger ping_fails (replicate ticks ClockCase)
                      (or_nullLogger nilLogger) (mPool, w) with
              | (Panicked err, st) => (Panics err, snd st)
              | (Ok _, st) =>
                  let st := snd (Close st) in
                  (Returns, snd (mgo.Close session (snd st)))
              end
          end
      end
  end.

End Main.

(** ** Concrete surroundings for [main] *)

(** The pool [main] would get for [MONGODB_CONNECTION_POOL=0]. *)
Definition fresh0 : St :=
  (mkPool Alive [] 0 1%nat false, mgo.mkWorld 2%nat [mgo.EvCopy 0%nat 1%nat]).

(** No variable set; a file that loads and sets nothing; a dial that
    succeeds; and three values of [MONGODB_CONNECTION_POOL]: not a
    number, -1, and 0. *)
Definition unset : Env := fun _ => "".
Definition load_nothing : string -> Env -> option Env := fun _ env => Some env.
Definition dial_ok : string -> option string := fun _ => None.
Definition atoi_error : string -> option Z := fun _ => None.
Definition atoi_minus_1 : string -> option Z := fun _ => Some (-1).
Definition atoi_0 : string -> option Z := fun _ => Some 0.
Definition atoi_max_int : string -> option Z := fun _ => Some 9223372036854775807.

(** A world in which nothing has happened yet. *)
Definition pristine : mgo.World := mgo.mkWorld 0%nat [].

(** ** Reading traces: what is closed, what is used *)

(** The sessions held in the slots, in slot order. *)
Definition held (l : list (option mgo.Session)) : list mgo.Session :=
  flat_map (fun o : option mgo.Session => match o with Some s => [s] | None => [] end) l.

(** The sessions a trace closes, oldest first. *)
Definition closed_by (t : list mgo.Event) : list mgo.Session :=
  flat_map (fun e => match e with mgo.EvClose s => [s] | _ => [] end) t.

(** The sessions a trace obtains with [Copy], oldest first. *)
Definition copied_by (t : list mgo.Event) : list mgo.Session :=
  flat_map (fun e => match e with mgo.EvCopy _ c => [c] | _ => [] end) t.

(** The session an event is a method call on. *)
Definition subject (e : mgo.Event) : option mgo.Session :=
  match e with
  | mgo.EvCopy s _ | mgo.EvClone s _ | mgo.EvPing s _ | mgo.EvClose s => Some s
  | mgo.EvInfo _ _ | mgo.EvDebug _ _ => None
  end.

(** No event of [t] is a call on a session in [dead] or on one that an
    earlier event of [t] has closed. *)
Fixpoint disciplined_from (dead : list mgo.Session) (t : list mgo.Event) : Prop :=
  match t with
  | [] => True
  | e :: t' =>
      match subject e with Some s => ~ In s dead | None => True end /\
      disciplined_from (closed_by [e] ++ dead)%list t'
  end.

Definition disciplined (t : list mgo.Event) : Prop := disciplined_from [] t.

(** What the pool keeps true of the events [t] it has caused since it
    was built: [t] is disciplined; only allocated sessions are closed;
    the base session and the held sessions are not closed; the held
    sessions are pairwise different, are not the base session, and are
    copies of it; every session copied is the base, or held, or closed. *)
Definition tidy (t : list mgo.Event) (st : St) : Prop :=
  disciplined t /\
  (forall s, In s (closed_by t) -> (s < mgo.next (snd st))%nat) /\
  (closed (fst st) = false -> ~ In (session (fst st)) (closed_by t)) /\
  (forall c, In c (held (sessions (fst st))) ->
     ~ In c (closed_by t) /\ c <> session (fst st) /\
     In (mgo.EvCopy (session (fst st)) c) t) /\
  List.NoDup (held (sessions (fst st))) /\
  (forall c, In c (copied_by t) ->
     (c = session (fst st) /\ closed (fst st) = false) \/
     In c (held (sessions (fst st))) \/ In c (closed_by t)).

(** A session the pool does not hold and has not closed. *)
Definition outside (h : mgo.Session) (t : list mgo.Event) (st : St) : Prop :=
  (h < mgo.next (snd st))%nat /\
  h <> session (fst st) /\
  ~ In h (held (sessions (fst st))) /\
  ~ In h (closed_by t).

(** What one call adds to the trace keeps it tidy, and keeps outside
    whatever was outside. *)
Definition keeps_tidy (t : list mgo.Event) (st st' : St) : Prop :=
  exists l,
    mgo.trace (snd st') = (mgo.trace (snd st) ++ l)%list /\
    tidy (t ++ l)%list st' /\
    forall h0, outside h0 t st -> outside h0 (t ++ l)%list st'.

(** * Proofs *)

Local Open Scope list_scope.

(** ** Integers *)

Lemma wrap_int_id z : is_int z -> wrap_int z = z.
Proof.
  unfold is_int, int_min, int_max, wrap_int. intros Hz.
  rewrite Z.mod_small; lia.
Qed.

Lemma next_index_in_range p :
  Z.of_nat (length (sessions p)) <= int_max ->
  0 <= sessionIndex p < Z.of_nat (length (sessions p)) ->
  next_index p = (sessionIndex p + 1) mod Z.of_nat (length (sessions p)).
Proof.
  intros Hlen Hi. unfold next_index.
  assert (Hmax : int_max = 2 ^ 63 - 1) by reflexivity.
  assert (Hmin : int_min = - 2 ^ 63) by reflexivity.
  rewrite (wrap_int_id (sessionIndex p + 1)) by (unfold is_int; lia).
  rewrite Z.rem_mod_nonneg by lia.
  apply wrap_int_id. unfold is_int.
  pose proof (Z.mod_pos_bound (sessionIndex p + 1) (Z.of_nat (length (sessions p)))).
  lia.
Qed.

(** ** The slice *)

Lemma read_slot_in_range p w i o :
  sessions p !! i = Some o ->
  read_slot (Z.of_nat i) (p, w) = (Ok o, (p, w)).
Proof.
  intros Hl. unfold read_slot, bind, field, gets, ret, panic. simpl.
  pose proof (lookup_lt_Some _ _ _ Hl) as Hlt.
  destruct (Z.ltb_spec (Z.of_nat i) 0); [lia|].
  destruct (Z.leb_spec (Z.of_nat (length (sessions p))) (Z.of_nat i)); [lia|].
  simpl. rewrite Nat2Z.id, Hl. reflexivity.
Qed.

Lemma read_slot_out_of_range p w i :
  i < 0 \/ Z.of_nat (length (sessions p)) <= i ->
  read_slot i (p, w) =
    (Panicked (IndexOutOfRange i (Z.of_nat (length (sessions p)))), (p, w)).
Proof.
  intros Hi. unfold read_slot, bind, field, gets, ret, panic. simpl.
  destruct (Z.ltb_spec i 0); [reflexivity|].
  destruct (Z.leb_spec (Z.of_nat (length (sessions p))) i); [reflexivity|lia].
Qed.

Lemma write_slot_in_range p w i v :
  (i < length (sessions p))%nat ->
  write_slot (Z.of_nat i) v (p, w) =
    (Ok tt, (set_sessions (<[i := v]> (sessions p)) p, w)).
Proof.
  intros Hlt. unfold write_slot, bind, field, gets, assign, modify, ret, panic. simpl.
  destruct (Z.ltb_spec (Z.of_nat i) 0); [lia|].
  destruct (Z.leb_spec (Z.of_nat (length (sessions p))) (Z.of_nat i)); [lia|].
  simpl. rewrite Nat2Z.id. reflexivity.
Qed.

Lemma all_nil_replicate n : all_nil (replicate n None).
Proof. apply Forall_forall. intros x Hx. apply elem_of_replicate in Hx. symmetry; tauto. Qed.

Lemma all_nil_eq l : all_nil l -> l = replicate (length l) None.
Proof.
  induction 1 as [|x l Hx _ IH]; [reflexivity|].
  simpl. subst x. f_equal. exact IH.
Qed.

Lemma closes_of_all_nil l : all_nil l -> closes_of l = [].
Proof.
  induction 1 as [|x l Hx _ IH]; [reflexivity|].
  subst x. simpl. exact IH.
Qed.


(** ** closeSessions *)

Section PoolFacts.
Variable ping_fails : list mgo.Event -> mgo.Session -> bool.

Lemma closeSessions_from_spec (rest : list (option mgo.Session)) :
  forall (pre : list (option mgo.Session)) p w,
  sessions p = (pre ++ rest)%list ->
  closeSessions_from (seq (length pre) (length rest)) (p, w) =
    (Ok tt, (set_sessions (pre ++ replicate (length rest) None)%list p,
             mgo.mkWorld (mgo.next w) (mgo.trace w ++ closes_of rest)%list)).
Proof.
  induction rest as [|o rest IH]; intros pre p w Hp.
  - simpl. unfold ret. rewrite app_nil_r in Hp. rewrite !app_nil_r, <- Hp.
    destruct p, w; reflexivity.
  - cbn [length seq closeSessions_from].
    assert (Hlk : sessions p !! length pre = Some o).
    { rewrite Hp. rewrite lookup_app_r by lia. rewrite Nat.sub_diag. reflexivity. }
    unfold bind at 1. unfold bind at 1.
    rewrite (read_slot_in_range _ _ _ _ Hlk).
    assert (Hpre : length (pre ++ [None (A:=mgo.Session)]) = S (length pre)).
    { rewrite length_app. simpl. lia. }
    destruct o as [s|].
    + unfold bind at 1. unfold in_world at 1, mgo.Close at 1. cbn [fst snd].
      rewrite write_slot_in_range
        by (cbn [fst snd sessions]; rewrite Hp, length_app; simpl; lia).
      cbn [fst snd].
      rewrite <- Hpre.
      rewrite (IH (pre ++ [None])).
      * f_equal. f_equal.
        -- unfold set_sessions. cbn. f_equal. rewrite <- app_assoc. reflexivity.
        -- unfold mgo.emit. cbn. rewrite <- app_assoc. reflexivity.
      * cbn. rewrite Hp. rewrite insert_app_r_alt by lia.
        rewrite Nat.sub_diag. cbn. rewrite <- app_assoc. reflexivity.
    + unfold ret at 1. rewrite <- Hpre.
      rewrite (IH (pre ++ [None])).
      * f_equal. f_equal. unfold set_sessions. f_equal.
        rewrite <- app_assoc. reflexivity.
      * rewrite Hp, <- app_assoc. reflexivity.
Qed.

Lemma closeSessions_spec p w :
  closeSessions (p, w) =
    (Ok tt, (set_sessions (replicate (length (sessions p)) None) p,
             mgo.mkWorld (mgo.next w) (mgo.trace w ++ closes_of (sessions p)))).
Proof.
  unfold closeSessions, bind, field, gets. cbn [fst snd].
  apply (closeSessions_from_spec (sessions p) [] p w). reflexivity.
Qed.

End PoolFacts.

(** ** Session, Reset, Close as equations *)

(** Expose the state passing of a method body. *)
Ltac unfold_go :=
  unfold bind, in_world, field, gets, ret, modify, assign, panic, len_sessions,
    Logger_Info, Logger_Debug, mgo.Copy, mgo.Ping, mgo.Clone, mgo.Close.

Section MethodFacts.
Variable ping_fails : list mgo.Event -> mgo.Session -> bool.

Abbreviation Session' := (Session ping_fails).

Lemma Session_closed logger p w :
  closed p = true ->
  Session' logger (p, w) =
    (Panicked (PanicString "Session called on closed Pool"), (p, w)).
Proof.
  intros Hc. unfold Session, bind, field, gets, panic. cbn [fst snd].
  rewrite Hc. reflexivity.
Qed.

Lemma Session_no_slot logger p w :
  closed p = false ->
  sessionIndex p < 0 \/ Z.of_nat (length (sessions p)) <= sessionIndex p ->
  Session' logger (p, w) =
    (Panicked (IndexOutOfRange (sessionIndex p) (Z.of_nat (length (sessions p)))),
     (p, w)).
Proof.
  intros Hc Hi. unfold Session. unfold bind at 1, field at 1, gets at 1.
  cbn [fst snd]. rewrite Hc.
  unfold bind at 1, field at 1, gets at 1. cbn [fst snd].
  unfold bind at 1. rewrite read_slot_out_of_range by exact Hi. reflexivity.
Qed.

Lemma go_rem_nonzero (a b : Z) (st : St) :
  b <> 0 -> go_rem a b st = (Ok (wrap_int (Z.rem a b)), st).
Proof.
  intros Hb. unfold go_rem. destruct (Z.eqb_spec b 0); [contradiction|reflexivity].
Qed.

(** Miss: the slot is nil. *)
Lemma Session_miss logger p w :
  closed p = false ->
  0 <= sessionIndex p ->
  sessions p !! Z.to_nat (sessionIndex p) = Some None ->
  let c := mgo.next w in
  let t := mgo.trace w ++ access_events logger (Creating (sessionIndex p))
             ++ [mgo.EvCopy (session p) c] in
  Session' logger (p, w) =
    (Ok (S c),
     (set_sessionIndex (next_index p)
        (set_sessions (<[Z.to_nat (sessionIndex p) := Some c]> (sessions p)) p),
      mgo.mkWorld (S (S c))
        (t ++ [mgo.EvPing c (ping_fails t c); mgo.EvClone c (S c)]))).
Proof.
  intros Hc Hi Hl c t.
  pose proof (lookup_lt_Some _ _ _ Hl) as Hlt.
  unfold Session. unfold bind at 1, field at 1, gets at 1.
  cbn [fst snd]. rewrite Hc.
  unfold bind at 1, field at 1, gets at 1. cbn [fst snd].
  unfold bind at 1.
  rewrite <- (Z2Nat.id (sessionIndex p)) at 1 by exact Hi.
  rewrite (read_slot_in_range _ _ _ _ Hl).
  assert (Hw : forall w' base,
    write_slot (sessionIndex p) (Some base) (p, w') =
      (Ok tt, (set_sessions (<[Z.to_nat (sessionIndex p) := Some base]> (sessions p)) p, w'))).
  { intros w' base. rewrite <- (Z2Nat.id (sessionIndex p)) at 1 by exact Hi.
    apply write_slot_in_range. exact Hlt. }
  assert (Hn : Z.of_nat (length (<[Z.to_nat (sessionIndex p) := Some c]> (sessions p))) <> 0).
  { rewrite length_insert. lia. }
  destruct logger as [| |k];
    unfold_go; cbn -[write_slot go_rem wrap_int Z.rem];
    rewrite Hw; cbn -[write_slot go_rem wrap_int Z.rem];
    rewrite go_rem_nonzero by exact Hn; cbn -[wrap_int Z.rem];
    unfold t, c, next_index, set_sessionIndex, set_sessions, mgo.emit;
    cbn -[wrap_int Z.rem]; rewrite length_insert;
    rewrite <- ?app_assoc; reflexivity.
Qed.

(** Hit: the slot holds a session. *)
Lemma Session_hit logger p w c :
  closed p = false ->
  0 <= sessionIndex p ->
  sessions p !! Z.to_nat (sessionIndex p) = Some (Some c) ->
  Session' logger (p, w) =
    (Ok (mgo.next w),
     (set_sessionIndex (next_index p) p,
      mgo.mkWorld (S (mgo.next w))
        (mgo.trace w ++ access_events logger (Reusing (sessionIndex p))
           ++ [mgo.EvClone c (mgo.next w)]))).
Proof.
  intros Hc Hi Hl.
  pose proof (lookup_lt_Some _ _ _ Hl) as Hlt.
  unfold Session. unfold bind at 1, field at 1, gets at 1.
  cbn [fst snd]. rewrite Hc.
  unfold bind at 1, field at 1, gets at 1. cbn [fst snd].
  unfold bind at 1.
  rewrite <- (Z2Nat.id (sessionIndex p)) at 1 by exact Hi.
  rewrite (read_slot_in_range _ _ _ _ Hl).
  assert (Hn : Z.of_nat (length (sessions p)) <> 0) by lia.
  destruct logger as [| |k];
    unfold_go; cbn -[go_rem wrap_int Z.rem];
    rewrite go_rem_nonzero by exact Hn; cbn -[wrap_int Z.rem];
    unfold next_index, set_sessionIndex, mgo.emit;
    cbn -[wrap_int Z.rem];
    rewrite <- ?app_assoc; rewrite ?app_nil_r; reflexivity.
Qed.

Lemma Reset_spec p w :
  Reset (p, w) =
    (Ok tt, (set_sessions (replicate (length (sessions p)) None) p,
             mgo.mkWorld (mgo.next w) (mgo.trace w ++ closes_of (sessions p)))).
Proof. apply closeSessions_spec. Qed.

(** First [Close] of an open pool. *)
Lemma Close_open p w :
  closed p = false ->
  Close (p, w) =
    (Ok tt,
     (mkPool Dead (replicate (length (sessions p)) None) (sessionIndex p)
        (session p) true,
      mgo.mkWorld (mgo.next w)
        (mgo.trace w ++ closes_of (sessions p) ++ [mgo.EvClose (session p)]))).
Proof.
  intros Hc. unfold Close.
  unfold bind at 1, assign at 1, modify at 1. cbn [fst snd].
  unfold bind at 1, assign at 1, modify at 1. cbn [fst snd].
  unfold bind at 1, field at 1, gets at 1. cbn [fst snd set_tomb closed].
  rewrite Hc.
  unfold bind at 1, assign at 1, modify at 1. cbn [fst snd].
  unfold bind at 1. rewrite closeSessions_spec.
  cbn. unfold mgo.emit. cbn. rewrite <- app_assoc.
  destruct (tomb p); reflexivity.
Qed.

(** [Close] of a closed pool only makes sure the tomb is dead. *)
Lemma Close_closed p w :
  closed p = true ->
  Close (p, w) = (Ok tt, (set_tomb Dead p, w)).
Proof.
  intros Hc. unfold Close.
  unfold bind at 1, assign at 1, modify at 1. cbn [fst snd].
  unfold bind at 1, assign at 1, modify at 1. cbn [fst snd].
  unfold bind at 1, field at 1, gets at 1. cbn [fst snd set_tomb closed].
  rewrite Hc. unfold ret, set_tomb. cbn.
  destruct (tomb p); reflexivity.
Qed.

End MethodFacts.

(** ** NewPool and the pinger *)

(** Small lengths fit. *)
Ltac fits := unfold ptr_size, maxAlloc; lia.

Lemma NewPool_ok logger s n w :
  0 <= n ->
  n * ptr_size <= maxAlloc ->
  NewPool logger s n w =
    (Ok (mkPool Alive (replicate (Z.to_nat n) None) 0 (mgo.next w) false),
     mgo.mkWorld (S (mgo.next w)) (mgo.trace w ++ [mgo.EvCopy s (mgo.next w)])).
Proof.
  intros Hn Hfit. unfold NewPool, make_sessions, bind.
  destruct (Z.ltb_spec n 0); [lia|].
  destruct (Z.ltb_spec maxAlloc (n * ptr_size)); [lia|]. reflexivity.
Qed.

Lemma NewPool_negative logger s n w :
  n < 0 -> NewPool logger s n w = (Panicked MakesliceLenOutOfRange, w).
Proof.
  intros Hn. unfold NewPool, make_sessions, bind.
  destruct (Z.ltb_spec n 0); [reflexivity|lia].
Qed.

Lemma NewPool_too_long logger s n w :
  maxAlloc < n * ptr_size ->
  NewPool logger s n w = (Panicked MakesliceLenOutOfRange, w).
Proof.
  intros Hn. unfold NewPool, make_sessions, bind.
  destruct (Z.ltb_spec n 0); [reflexivity|].
  destruct (Z.ltb_spec maxAlloc (n * ptr_size)); [reflexivity|lia].
Qed.

(** When [NewPool] returns, the length was one [make] accepts. *)
Lemma NewPool_returns logger s n w p0 w1 :
  NewPool logger s n w = (Ok p0, w1) ->
  0 <= n /\ n * ptr_size <= maxAlloc /\
  NewPool logger s n w =
    (Ok (mkPool Alive (replicate (Z.to_nat n) None) 0 (mgo.next w) false),
     mgo.mkWorld (S (mgo.next w)) (mgo.trace w ++ [mgo.EvCopy s (mgo.next w)])).
Proof.
  intros E. destruct (Z.lt_ge_cases n 0) as [Hn|Hn].
  { rewrite NewPool_negative in E by exact Hn. discriminate. }
  destruct (Z.lt_ge_cases maxAlloc (n * ptr_size)) as [Hb|Hb].
  { rewrite NewPool_too_long in E by exact Hb. discriminate. }
  split; [lia|]. split; [exact Hb|]. apply NewPool_ok; [lia|exact Hb].
Qed.

Section Invariants.
Variable ping_fails : list mgo.Event -> mgo.Session -> bool.
Variable logger0 : Logger.

Abbreviation Session' := (Session ping_fails).
Abbreviation step' := (step ping_fails logger0).
Abbreviation run' := (run ping_fails logger0).

(** One iteration of the pinger, spelled out. *)
Lemma pinger_iteration_unfold logger st :
  pinger_iteration ping_fails logger st =
    match Session' logger st with
    | (Panicked e, st') => (Panicked e, st')
    | (Ok h, (p1, w1)) =>
        let r := ping_fails (mgo.trace w1) h in
        let t := mgo.trace w1 ++ [mgo.EvPing h r] in
        if r
        then (Ok tt, (set_sessions (replicate (length (sessions p1)) None) p1,
                      mgo.mkWorld (mgo.next w1)
                        (t ++ closes_of (sessions p1) ++ [mgo.EvClose h])))
        else (Ok tt, (p1, mgo.mkWorld (mgo.next w1) (t ++ [mgo.EvClose h])))
    end.
Proof.
  unfold pinger_iteration. unfold bind at 1.
  destruct (Session' logger st) as [[h|e] [p1 w1]]; [|reflexivity].
  unfold bind at 1. unfold in_world at 1, mgo.Ping at 1. cbn [fst snd].
  destruct (ping_fails (mgo.trace w1) h).
  - unfold bind at 1. rewrite Reset_spec.
    unfold in_world, mgo.Close, mgo.emit. cbn. rewrite <- app_assoc. reflexivity.
  - unfold bind, ret, in_world, mgo.Close, mgo.emit. cbn. reflexivity.
Qed.

(** The four ways a [Session] call can go on a pool whose cursor is sound. *)
Lemma Session_cases logger p w :
  cursor_ok p ->
  (closed p = true /\
   Session' logger (p, w) =
     (Panicked (PanicString "Session called on closed Pool"), (p, w)))
  \/ (closed p = false /\ sessions p = [] /\
      Session' logger (p, w) = (Panicked (IndexOutOfRange 0 0), (p, w)))
  \/ (closed p = false /\
      0 <= sessionIndex p < Z.of_nat (length (sessions p)) /\
      sessions p !! Z.to_nat (sessionIndex p) = Some None /\
      exists t,
        Session' logger (p, w) =
          (Ok (S (mgo.next w)),
           (set_sessionIndex ((sessionIndex p + 1) mod Z.of_nat (length (sessions p)))
              (set_sessions
                 (<[Z.to_nat (sessionIndex p) := Some (mgo.next w)]> (sessions p)) p),
            mgo.mkWorld (S (S (mgo.next w))) (mgo.trace w ++ t))))
  \/ (closed p = false /\
      0 <= sessionIndex p < Z.of_nat (length (sessions p)) /\
      exists c t,
        sessions p !! Z.to_nat (sessionIndex p) = Some (Some c) /\
        Session' logger (p, w) =
          (Ok (mgo.next w),
           (set_sessionIndex ((sessionIndex p + 1) mod Z.of_nat (length (sessions p))) p,
            mgo.mkWorld (S (mgo.next w)) (mgo.trace w ++ t)))).
Proof.
  intros [Hlen Hcur].
  destruct (closed p) eqn:Hc.
  { left. split; [reflexivity|]. apply Session_closed. exact Hc. }
  right. destruct Hcur as [Hi | [Hnil H0]].
  - right.
    destruct (lookup_lt_is_Some_2 (sessions p) (Z.to_nat (sessionIndex p)))
      as [[c|] Hl]; [lia| |].
    + right. split; [reflexivity|]. split; [exact Hi|].
      eexists c, _. split; [exact Hl|].
      rewrite (Session_hit ping_fails logger p w c Hc) by (lia || exact Hl).
      rewrite next_index_in_range by assumption. reflexivity.
    + left. split; [reflexivity|]. split; [exact Hi|]. split; [exact Hl|].
      eexists _.
      rewrite (Session_miss ping_fails logger p w Hc) by (lia || exact Hl).
      rewrite next_index_in_range by assumption.
      cbv zeta. rewrite <- app_assoc. reflexivity.
  - left. split; [reflexivity|]. split; [exact Hnil|].
    rewrite Session_no_slot; [|exact Hc|rewrite Hnil; simpl; lia].
    rewrite Hnil, H0. reflexivity.
Qed.

Lemma inv_Session logger st : inv st -> inv (snd (Session' logger st)).
Proof.
  destruct st as [p w]. intros (Hcur & [Hbase Hslots] & Hcl).
  cbn [fst snd] in *.
  destruct (Session_cases logger p w Hcur)
    as [[Hc E] | [(Hc & Hnil & E) | [(Hc & Hi & Hl & t & E) | (Hc & Hi & c & t & Hl & E)]]];
    rewrite E; cbn [fst snd].
  - split; [exact Hcur|]. split; [split; assumption|exact Hcl].
  - split; [exact Hcur|]. split; [split; assumption|exact Hcl].
  - destruct Hcur as [Hlen _].
    pose proof (Z.mod_pos_bound (sessionIndex p + 1) (Z.of_nat (length (sessions p)))) as Hm.
    split; [|split].
    + unfold cursor_ok. cbn. rewrite length_insert. split; [exact Hlen|]. left. lia.
    + unfold allocated. cbn. split; [lia|]. intros i s Hs.
      destruct (decide (i = Z.to_nat (sessionIndex p))) as [->|Hne].
      * rewrite list_lookup_insert_eq in Hs by exact (lookup_lt_Some _ _ _ Hl).
        inversion Hs. lia.
      * rewrite list_lookup_insert_ne in Hs by congruence.
        apply Hslots in Hs. lia.
    + unfold closed_ok. cbn. rewrite Hc. discriminate.
  - destruct Hcur as [Hlen _].
    pose proof (Z.mod_pos_bound (sessionIndex p + 1) (Z.of_nat (length (sessions p)))) as Hm.
    split; [|split].
    + unfold cursor_ok. cbn. split; [exact Hlen|]. left. lia.
    + unfold allocated. cbn. split; [lia|]. intros i s Hs.
      apply Hslots in Hs. lia.
    + unfold closed_ok. cbn. rewrite Hc. discriminate.
Qed.

Lemma lookup_replicate_nil n i (s : mgo.Session) :
  replicate n (None (A:=mgo.Session)) !! i = Some (Some s) -> False.
Proof. intros H. apply lookup_replicate in H. destruct H; discriminate. Qed.

Lemma inv_Reset st : inv st -> inv (snd (Reset st)).
Proof.
  destruct st as [p w]. intros ([Hlen Hcur] & [Hbase Hslots] & Hcl).
  rewrite Reset_spec. cbn [fst snd] in *. split; [|split].
  - unfold cursor_ok. cbn. rewrite length_replicate. split; [exact Hlen|].
    destruct Hcur as [Hi|[Hnil H0]]; [left; exact Hi|right].
    rewrite Hnil. split; [reflexivity|exact H0].
  - unfold allocated. cbn. split; [exact Hbase|].
    intros i s Hs. exfalso. exact (lookup_replicate_nil _ _ _ Hs).
  - unfold closed_ok. cbn. intros Hc. split; [apply all_nil_replicate|].
    apply Hcl. exact Hc.
Qed.

Lemma inv_Close st : inv st -> inv (snd (Close st)).
Proof.
  destruct st as [p w]. intros ([Hlen Hcur] & [Hbase Hslots] & Hcl).
  cbn [fst snd] in *.
  destruct (closed p) eqn:Hc.
  - rewrite Close_closed by exact Hc. cbn [fst snd].
    split; [|split].
    + split; assumption.
    + split; assumption.
    + unfold closed_ok. cbn. intros _. split; [apply Hcl; exact Hc|reflexivity].
  - rewrite Close_open by exact Hc. cbn [fst snd]. split; [|split].
    + unfold cursor_ok. cbn. rewrite length_replicate. split; [exact Hlen|].
      destruct Hcur as [Hi|[Hnil H0]]; [left; exact Hi|right].
      rewrite Hnil. split; [reflexivity|exact H0].
    + unfold allocated. cbn. split; [exact Hbase|].
      intros i s Hs. exfalso. exact (lookup_replicate_nil _ _ _ Hs).
    + unfold closed_ok. cbn. intros _. split; [apply all_nil_replicate|reflexivity].
Qed.

Lemma inv_pinger_iteration logger st :
  inv st -> inv (snd (pinger_iteration ping_fails logger st)).
Proof.
  intros Hinv. rewrite pinger_iteration_unfold.
  pose proof (inv_Session logger st Hinv) as HS.
  destruct (Session' logger st) as [[h|e] [p1 w1]]; [|exact HS].
  cbn [snd] in HS. cbv zeta.
  destruct (ping_fails (mgo.trace w1) h).
  - pose proof (inv_Reset _ HS) as HR. rewrite Reset_spec in HR.
    destruct HR as (Hcur & [Hbase Hslots] & Hcl). cbn [fst snd] in *.
    split; [exact Hcur|]. split; [|exact Hcl]. split; assumption.
  - destruct HS as (Hcur & [Hbase Hslots] & Hcl). cbn [fst snd] in *.
    split; [exact Hcur|]. split; [|exact Hcl]. split; assumption.
Qed.

Lemma inv_step st c : inv st -> inv (step' st c).
Proof.
  intros Hinv. destruct c as [logger| | |]; cbn [step].
  - apply inv_Session. exact Hinv.
  - apply inv_Reset. exact Hinv.
  - apply inv_Close. exact Hinv.
  - destruct (tomb (fst st)); [|exact Hinv|exact Hinv].
    apply inv_pinger_iteration. exact Hinv.
Qed.

Lemma inv_run cs : forall st, inv st -> inv (run' cs st).
Proof.
  induction cs as [|c cs IH]; intros st Hinv; [exact Hinv|].
  cbn [run fold_left]. apply IH. apply inv_step. exact Hinv.
Qed.

Lemma inv_NewPool logger s n w p0 w1 :
  n <= int_max ->
  NewPool logger s n w = (Ok p0, w1) ->
  inv (p0, w1).
Proof.
  intros Hmax E.
  destruct (NewPool_returns _ _ _ _ _ _ E) as (Hn & Hfit & E0).
  rewrite E0 in E. inversion E; subst p0 w1; clear E.
  split; [|split].
  - unfold cursor_ok. cbn. rewrite length_replicate, Z2Nat.id by exact Hn.
    split; [exact Hmax|].
    destruct (Z.eq_dec n 0) as [->|Hne]; [right; split; reflexivity|left; lia].
  - unfold allocated. cbn. split; [lia|].
    intros i c Hs. exfalso. exact (lookup_replicate_nil _ _ _ Hs).
  - unfold closed_ok. cbn. discriminate.
Qed.

End Invariants.

(** ** Traces *)

Lemma since_extends w0 w t :
  mgo.trace w = mgo.trace w0 ++ t -> since w0 w = t.
Proof. intros E. unfold since. rewrite E. apply drop_app_length. Qed.

Lemma logged_app t1 t2 : logged (t1 ++ t2) = logged t1 ++ logged t2.
Proof. unfold logged. apply List.filter_app. Qed.

Lemma logged_access logger a : logged (access_events logger a) = access_events logger a.
Proof. destruct logger, a; reflexivity. Qed.

Lemma closes_of_cons_Some c l : closes_of (Some c :: l) = mgo.EvClose c :: closes_of l.
Proof. reflexivity. Qed.

Lemma closes_of_lookup l : forall i c,
  l !! i = Some (Some c) -> In (mgo.EvClose c) (closes_of l).
Proof.
  induction l as [|o l IH]; intros [|i] c Hl; try discriminate.
  - simpl in Hl. inversion Hl; subst o. left. reflexivity.
  - simpl in Hl. unfold closes_of. simpl. apply in_or_app. right.
    exact (IH i c Hl).
Qed.

(** ** After Close *)

Section Shut.
Variable ping_fails : list mgo.Event -> mgo.Session -> bool.
Variable logger0 : Logger.

Lemma shut_after_Close st : shut (fst (snd (Close st))).
Proof.
destruct st as [p w]. destruct (closed p) eqn:Hc.
- rewrite Close_closed by exact Hc. split; [exact Hc|reflexivity].
- rewrite Close_open by exact Hc. split; reflexivity.
Qed.

Lemma Close_shut st : shut (fst st) -> Close st = (Ok tt, st).
Proof.
destruct st as [p w]. intros [Hc Ht]. cbn [fst] in *.
rewrite Close_closed by exact Hc. unfold set_tomb. rewrite <- Ht.
destruct p; reflexivity.
Qed.

Lemma shut_step st c : shut (fst st) -> shut (fst (step ping_fails logger0 st c)).
Proof.
destruct st as [p w]. intros Hs. pose proof Hs as [Hc Ht]. cbn [fst] in *.
destruct c as [logger| | |]; cbn [step fst].
- rewrite Session_closed by exact Hc. exact Hs.
- rewrite Reset_spec. split; assumption.
- rewrite Close_shut by exact Hs. exact Hs.
- rewrite Ht. exact Hs.
Qed.

Lemma shut_run cs : forall st,
shut (fst st) -> shut (fst (run ping_fails logger0 cs st)).
Proof.
induction cs as [|c cs IH]; intros st Hs; [exact Hs|].
cbn [run fold_left]. apply IH. apply shut_step. exact Hs.
Qed.

End Shut.

(** ** Claims about Close and Reset *)

(** C4.  Once [Close] has completed, every later call of [Session]
    panics with "Session called on closed Pool", whatever else was called
    on the pool in between; no handle is ever returned. *)
Theorem C4_Session_after_Close_panics
  (ping_fails : list mgo.Event -> mgo.Session -> bool)
  (logger0 logger : Logger) (st : St) (cs : list Call) :
  fst (Session ping_fails logger (run ping_fails logger0 cs (snd (Close st))))
  = Panicked (PanicString "Session called on closed Pool").
Proof.
  pose proof (shut_run ping_fails logger0 cs _ (shut_after_Close st)) as [Hc _].
  destruct (run ping_fails logger0 cs (snd (Close st))) as [p w].
  rewrite Session_closed by exact Hc. reflexivity.
Qed.

(** C7.  [Close] is idempotent: the first call returns normally, and the
    second and every later call (whatever was called in between) returns
    normally and leaves pool and world exactly as they were, so the base
    session sees no second [Close]. *)
Theorem C7_Close_idempotent
  (ping_fails : list mgo.Event -> mgo.Session -> bool)
  (logger0 : Logger) (st : St) (cs : list Call) :
  fst (Close st) = Ok tt /\
  Close (snd (Close st)) = (Ok tt, snd (Close st)) /\
  Close (run ping_fails logger0 cs (snd (Close st)))
  = (Ok tt, run ping_fails logger0 cs (snd (Close st))).
Proof.
  split; [|split].
  - destruct st as [p w]. destruct (closed p) eqn:Hc.
    + rewrite Close_closed by exact Hc. reflexivity.
    + rewrite Close_open by exact Hc. reflexivity.
  - apply Close_shut. apply shut_after_Close.
  - apply Close_shut. apply shut_run. apply shut_after_Close.
Qed.

(** C10.  [Reset] returns normally and touches only the slots: every
    slot becomes nil (the slice keeps its length) and each session that
    was in a slot is closed, in slot order; the cursor, the closed flag,
    the base session and the tomb are as before, and no session is
    allocated.  Hence on an open pool whose cursor is in range the next
    [Session] call creates at the slot the cursor pointed to before the
    [Reset]. *)
Theorem C10_Reset_touches_only_slots
  (ping_fails : list mgo.Event -> mgo.Session -> bool) (st : St) :
  exists st',
    Reset st = (Ok tt, st') /\
    sessionIndex (fst st') = sessionIndex (fst st) /\
    closed (fst st') = closed (fst st) /\
    session (fst st') = session (fst st) /\
    tomb (fst st') = tomb (fst st) /\
    sessions (fst st') = replicate (length (sessions (fst st))) None /\
    mgo.next (snd st') = mgo.next (snd st) /\
    mgo.trace (snd st') = mgo.trace (snd st) ++ closes_of (sessions (fst st)) /\
    forall logger,
      closed (fst st) = false ->
      0 <= sessionIndex (fst st) < Z.of_nat (length (sessions (fst st))) ->
      exists h st'',
        Session ping_fails logger st' = (Ok h, st'') /\
        sessions (fst st'') =
          <[Z.to_nat (sessionIndex (fst st)) := Some (mgo.next (snd st))]>
            (sessions (fst st')) /\
        logged (since (snd st') (snd st'')) =
          access_events logger (Creating (sessionIndex (fst st))).
Proof.
  destruct st as [p w]. eexists. split; [apply Reset_spec|].
  cbn [fst snd]. repeat (split; [reflexivity|]).
  intros logger Hc Hi.
  set (p' := set_sessions (replicate (length (sessions p)) None) p).
  set (w' := mgo.mkWorld (mgo.next w) (mgo.trace w ++ closes_of (sessions p))).
  assert (Hl : sessions p' !! Z.to_nat (sessionIndex p') = Some None).
  { cbn. apply lookup_replicate. split; [reflexivity|lia]. }
  pose proof (Session_miss ping_fails logger p' w' Hc (proj1 Hi) Hl) as E.
  cbv zeta in E. eexists _, _. split; [exact E|].
  cbn [fst snd]. split; [reflexivity|].
  erewrite since_extends; [|cbn [mgo.trace]; rewrite <- !app_assoc; reflexivity].
  rewrite logged_app, logged_access. cbn. apply app_nil_r.
Qed.

(** ** Reachable states *)

Section Reach.
Variable ping_fails : list mgo.Event -> mgo.Session -> bool.
Variable logger0 : Logger.

Lemma run_app cs1 cs2 st :
run ping_fails logger0 (cs1 ++ cs2) st
= run ping_fails logger0 cs2 (run ping_fails logger0 cs1 st).
Proof. unfold run. apply fold_left_app. Qed.

Lemma inv_reachable logger s n w0 p0 w1 cs :
n <= int_max ->
NewPool logger s n w0 = (Ok p0, w1) ->
inv (run ping_fails logger0 cs (p0, w1)).
Proof.
intros Hn E. apply inv_run. exact (inv_NewPool logger s n w0 p0 w1 Hn E).
Qed.

(** [len(p.sessions)] never changes. *)
Lemma length_step st c :
inv st ->
length (sessions (fst (step ping_fails logger0 st c))) = length (sessions (fst st)).
Proof.
destruct st as [p w]. intros (Hcur & _ & _). cbn [fst] in *.
assert (HS : forall logger,
  length (sessions (fst (snd (Session ping_fails logger (p, w)))))
  = length (sessions p)).
{ intros logger.
  destruct (Session_cases ping_fails logger p w Hcur)
    as [[Hc E] | [(Hc & Hnil & E) | [(Hc & Hi & Hl & t & E) | (Hc & Hi & c1 & t & Hl & E)]]];
    rewrite E; cbn; rewrite ?length_insert; reflexivity. }
destruct c as [logger| | |]; cbn [step fst].
- apply HS.
- rewrite Reset_spec. cbn. apply length_replicate.
- destruct (closed p) eqn:Hc.
  + rewrite Close_closed by exact Hc. reflexivity.
  + rewrite Close_open by exact Hc. cbn. apply length_replicate.
- destruct (tomb p); try reflexivity.
  rewrite pinger_iteration_unfold. specialize (HS (or_nullLogger logger0)).
  destruct (Session ping_fails (or_nullLogger logger0) (p, w)) as [[h|e] [p1 w1]];
    [|exact HS].
  cbv zeta. cbn [fst snd] in HS.
  destruct (ping_fails (mgo.trace w1) h); cbn; rewrite ?length_replicate; exact HS.
Qed.

Lemma length_run cs : forall st,
inv st ->
length (sessions (fst (run ping_fails logger0 cs st))) = length (sessions (fst st)).
Proof.
induction cs as [|c cs IH]; intros st Hinv; [reflexivity|].
cbn [run fold_left].
rewrite <- (length_step st c Hinv). apply IH. apply inv_step. exact Hinv.
Qed.

(** [Session] never returns on a pool that is closed or has no slot. *)
Lemma Session_fails logger p w :
cursor_ok p ->
closed p = true \/ sessions p = [] ->
returns (fst (Session ping_fails logger (p, w))) = false.
Proof.
intros Hcur Hor.
destruct (Session_cases ping_fails logger p w Hcur)
  as [[Hc E] | [(Hc & Hnil & E) | [(Hc & Hi & Hl & t & E) | (Hc & Hi & c & t & Hl & E)]]];
  rewrite E; try reflexivity; exfalso;
  (destruct Hor as [Hc'|Hnil]; [congruence|rewrite Hnil in Hi; simpl in Hi; lia]).
Qed.

End Reach.

(** C8.  In every state reached from a pool built by [NewPool]: if the
    closed flag is set then every slot is nil, and after any further
    calls ([Session], [Reset], [Close], in any order and number) the flag
    is still set, every slot is still nil, and [Session] does not
    return. *)
Theorem C8_closed_is_final
  (ping_fails : list mgo.Event -> mgo.Session -> bool)
  (logger0 : Logger) (s : mgo.Session) (maxSessions : Z) (w0 : mgo.World)
  (p0 : Pool) (w1 : mgo.World) (cs : list Call) :
  is_int maxSessions ->
  NewPool logger0 s maxSessions w0 = (Ok p0, w1) ->
  closed (fst (run ping_fails logger0 cs (p0, w1))) = true ->
  all_nil (sessions (fst (run ping_fails logger0 cs (p0, w1)))) /\
  forall (cs' : list Call) (logger : Logger),
    let st' := run ping_fails logger0 (cs ++ cs') (p0, w1) in
    closed (fst st') = true /\
    all_nil (sessions (fst st')) /\
    returns (fst (Session ping_fails logger st')) = false.
Proof.
  intros [_ Hmax] E Hc.
  pose proof (inv_reachable ping_fails logger0 _ _ _ _ _ _ cs Hmax E) as Hinv.
  pose proof Hinv as (_ & _ & Hcl).
  destruct (Hcl Hc) as [Hnil Hdead].
  split; [exact Hnil|].
  intros cs' logger st'. subst st'. rewrite run_app.
  pose proof (shut_run ping_fails logger0 cs' _ (conj Hc Hdead)) as [Hc' Hdead'].
  pose proof (inv_run ping_fails logger0 cs' _ Hinv) as Hinv'.
  destruct (run ping_fails logger0 cs' (run ping_fails logger0 cs (p0, w1))) as [p w].
  cbn [fst] in *. split; [exact Hc'|].
  pose proof Hinv' as (Hcur & _ & Hcl'). cbn [fst] in *.
  split; [exact (proj1 (Hcl' Hc'))|].
  apply Session_fails; [exact Hcur|left; exact Hc'].
Qed.

(** ** Filling a fresh pool *)

Section Filling.
Variable ping_fails : list mgo.Event -> mgo.Session -> bool.
Variable n : Z.
Hypothesis n_pos : 1 <= n.
Hypothesis n_int : n <= int_max.

Lemma filled_cursor k p :
filled n k p ->
0 <= sessionIndex p < Z.of_nat (length (sessions p)) /\
Z.of_nat (length (sessions p)) <= int_max.
Proof.
intros (_ & Hlen & Hidx & _). rewrite Hlen, Hidx.
pose proof (Z.mod_pos_bound (Z.of_nat k) n). lia.
Qed.

Lemma filled_NewPool logger s w0 p0 w1 :
NewPool logger s n w0 = (Ok p0, w1) -> filled n 0 p0.
Proof.
intros E. rewrite (proj2 (proj2 (NewPool_returns _ _ _ _ _ _ E))) in E.
  inversion E; subst p0 w1; clear E.
unfold filled. cbn. rewrite length_replicate.
split; [reflexivity|]. split; [lia|]. split; [rewrite Z.mod_0_l by lia; reflexivity|].
split.
- intros j Hj _. apply lookup_replicate. split; [reflexivity|exact Hj].
- intros j _ Hj. lia.
Qed.

(** The first [n] calls each create, at slot [k]. *)
Lemma filled_Session_miss logger k p w :
Z.of_nat k < n ->
filled n k p ->
let c := mgo.next w in
let t := mgo.trace w ++ access_events logger (Creating (Z.of_nat k))
           ++ [mgo.EvCopy (session p) c] in
let p' := set_sessionIndex (Z.of_nat (S k) mod n)
            (set_sessions (<[k := Some c]> (sessions p)) p) in
Session ping_fails logger (p, w) =
  (Ok (S c), (p', mgo.mkWorld (S (S c))
                    (t ++ [mgo.EvPing c (ping_fails t c); mgo.EvClone c (S c)])))
/\ filled n (S k) p'.
Proof.
intros Hk Hf c t p'.
pose proof (filled_cursor k p Hf) as [Hi Hmax].
destruct Hf as (Hc & Hlen & Hidx & Hnil & Hsome).
assert (Hidx' : sessionIndex p = Z.of_nat k).
{ rewrite Hidx. apply Z.mod_small. lia. }
assert (Hl : sessions p !! Z.to_nat (sessionIndex p) = Some None).
{ rewrite Hidx', Nat2Z.id. apply Hnil; lia. }
pose proof (Session_miss ping_fails logger p w Hc (proj1 Hi) Hl) as E.
cbv zeta in E. rewrite next_index_in_range in E by assumption.
rewrite Hidx', Nat2Z.id, Hlen in E.
replace (Z.of_nat k + 1) with (Z.of_nat (S k)) in E by lia.
split; [exact E|].
unfold filled, p'. cbn. rewrite length_insert.
split; [exact Hc|]. split; [exact Hlen|]. split; [reflexivity|]. split.
- intros j Hj Hkj. rewrite list_lookup_insert_ne by lia. apply Hnil; lia.
- intros j Hj Hjk. destruct (decide (j = k)) as [->|Hne].
  + exists c. apply list_lookup_insert_eq. exact Hj.
  + rewrite list_lookup_insert_ne by congruence. apply Hsome; lia.
Qed.

(** Every later call reuses, at slot [k mod n]. *)
Lemma filled_Session_hit logger k p w :
n <= Z.of_nat k ->
filled n k p ->
let p' := set_sessionIndex (Z.of_nat (S k) mod n) p in
exists c,
  sessions p !! Z.to_nat (Z.of_nat k mod n) = Some (Some c) /\
  Session ping_fails logger (p, w) =
    (Ok (mgo.next w),
     (p', mgo.mkWorld (S (mgo.next w))
            (mgo.trace w ++ access_events logger (Reusing (Z.of_nat k mod n))
               ++ [mgo.EvClone c (mgo.next w)])))
  /\ filled n (S k) p'.
Proof.
intros Hk Hf p'.
pose proof (filled_cursor k p Hf) as [Hi Hmax].
destruct Hf as (Hc & Hlen & Hidx & Hnil & Hsome).
destruct (Hsome (Z.to_nat (sessionIndex p))) as [c Hl]; [lia|lia|].
exists c. rewrite <- Hidx. split; [exact Hl|].
pose proof (Session_hit ping_fails logger p w c Hc (proj1 Hi) Hl) as E.
rewrite next_index_in_range in E by assumption.
rewrite Hlen in E. rewrite Hidx in E at 1.
rewrite Z.add_mod_idemp_l in E by lia.
replace (Z.of_nat k + 1) with (Z.of_nat (S k)) in E by lia.
split; [exact E|].
unfold filled, p'. cbn.
split; [exact Hc|]. split; [exact Hlen|]. split; [reflexivity|]. split.
- intros j Hj Hkj. lia.
- intros j Hj Hjk. apply Hsome; lia.
Qed.

Lemma filled_Session logger k p w :
filled n k p ->
exists h p' w',
  Session ping_fails logger (p, w) = (Ok h, (p', w')) /\ filled n (S k) p'.
Proof.
intros Hf. destruct (Z.lt_ge_cases (Z.of_nat k) n) as [Hk|Hk].
- destruct (filled_Session_miss logger k p w Hk Hf) as [E Hf'].
  eexists _, _, _. split; [exact E|exact Hf'].
- destruct (filled_Session_hit logger k p w Hk Hf) as (c & _ & E & Hf').
  eexists _, _, _. split; [exact E|exact Hf'].
Qed.

Lemma filled_Sessions loggers : forall k p w,
filled n k p ->
exists hs p' w',
  Sessions ping_fails loggers (p, w) = (Ok hs, (p', w')) /\
  length hs = length loggers /\
  filled n (k + length loggers) p'.
Proof.
induction loggers as [|l rest IH]; intros k p w Hf.
- exists [], p, w. split; [reflexivity|]. split; [reflexivity|].
  rewrite Nat.add_0_r. exact Hf.
- destruct (filled_Session l k p w Hf) as (h & p1 & w1 & E & Hf1).
  destruct (IH (S k) p1 w1 Hf1) as (hs & p' & w' & E' & Hlen & Hf').
  exists (h :: hs), p', w'. split; [|split].
  + cbn [Sessions]. unfold bind at 1. rewrite E.
    unfold bind at 1. rewrite E'. reflexivity.
  + simpl. rewrite Hlen. reflexivity.
  + simpl length. rewrite Nat.add_succ_r. exact Hf'.
Qed.

Lemma filled_full k p :
n <= Z.of_nat k -> filled n k p ->
Forall is_Some (sessions p) /\ populated (sessions p) = length (sessions p).
Proof.
intros Hk (_ & Hlen & _ & _ & Hsome).
assert (HF : Forall is_Some (sessions p)).
{ apply Forall_lookup_2. intros j o Hj.
  pose proof (lookup_lt_Some _ _ _ Hj) as Hlt.
  destruct (Hsome j) as [c Hc]; [exact Hlt|lia|].
  rewrite Hc in Hj. inversion Hj. eexists; reflexivity. }
split; [exact HF|].
unfold populated. clear -HF.
induction HF as [|o l [c ->] _ IH]; [reflexivity|].
simpl. rewrite IH. reflexivity.
Qed.

End Filling.

(** ** Claims about a fresh pool *)

Lemma last_two {A} (t : list A) (a b : A) : list.last (t ++ [a; b]) = Some b.
Proof. change [a; b] with ([a] ++ [b]). rewrite app_assoc. apply last_snoc. Qed.

(** C2.  On a fresh pool with [maxSessions >= 1], after any number [i] of
    [Session] calls (and nothing else) the cursor is [i mod maxSessions];
    the next call, the [i]-th counting from 0, returns a clone of the
    session in slot [i mod maxSessions], logs that index (creating while
    [i < maxSessions], reusing afterwards), and moves the cursor to
    [(cursor + 1) mod maxSessions]; the cursor is in [0, maxSessions)
    before and after. *)
Theorem C2_round_robin
  (ping_fails : list mgo.Event -> mgo.Session -> bool)
  (logger0 : Logger) (s : mgo.Session) (maxSessions : Z) (w0 : mgo.World)
  (p0 : Pool) (w1 : mgo.World) (loggers : list Logger) (logger : Logger) :
  1 <= maxSessions ->
  is_int maxSessions ->
  NewPool logger0 s maxSessions w0 = (Ok p0, w1) ->
  let i := Z.of_nat (length loggers) in
  exists hs p w h p' w',
    Sessions ping_fails loggers (p0, w1) = (Ok hs, (p, w)) /\
    length hs = length loggers /\
    Session ping_fails logger (p, w) = (Ok h, (p', w')) /\
    sessionIndex p = i mod maxSessions /\
    0 <= sessionIndex p < maxSessions /\
    sessionIndex p' = (sessionIndex p + 1) mod maxSessions /\
    0 <= sessionIndex p' < maxSessions /\
    (exists c, sessions p' !! Z.to_nat (i mod maxSessions) = Some (Some c) /\
               list.last (mgo.trace w') = Some (mgo.EvClone c h)) /\
    logged (since w w') =
      access_events logger
        (if Z.ltb i maxSessions then Creating (i mod maxSessions)
         else Reusing (i mod maxSessions)).
Proof.
  intros Hpos [_ Hmax] E i.
  pose proof (filled_NewPool maxSessions Hpos logger0 s w0 p0 w1 E) as Hf0.
  destruct (filled_Sessions ping_fails maxSessions Hpos Hmax loggers 0 p0 w1 Hf0)
    as (hs & p & w & ES & Hlen & Hf).
  cbn [Nat.add] in Hf.
  pose proof Hf as (Hc & Hl & Hidx & _).
  pose proof (Z.mod_pos_bound i maxSessions ltac:(lia)) as Hm.
  pose proof (Z.mod_pos_bound (sessionIndex p + 1) maxSessions ltac:(lia)) as Hm'.
  assert (Hadv : forall k : nat, Z.of_nat k = i ->
            Z.of_nat (S k) mod maxSessions = (i mod maxSessions + 1) mod maxSessions).
  { intros k Hk. rewrite Z.add_mod_idemp_l by lia. f_equal. lia. }
  destruct (Z.ltb_spec i maxSessions) as [Hi|Hi].
  - destruct (filled_Session_miss ping_fails maxSessions Hpos Hmax logger _ p w Hi Hf)
      as [E1 _].
    cbv zeta in E1.
    eexists hs, p, w, _, _, _.
    split; [exact ES|]. split; [exact Hlen|]. split; [exact E1|].
    cbn [sessionIndex set_sessionIndex sessions set_sessions mgo.trace].
    split; [exact Hidx|]. split; [fold i in Hidx; lia|].
    split; [rewrite Hidx; apply Hadv; reflexivity|].
    split; [apply Z.mod_pos_bound; lia|].
    split.
    + exists (mgo.next w). split; [|apply last_two].
      rewrite Z.mod_small by lia. unfold i. rewrite Nat2Z.id.
      apply list_lookup_insert_eq. lia.
    + erewrite since_extends; [|rewrite <- !app_assoc; reflexivity].
      rewrite logged_app, logged_access. cbn.
      rewrite Z.mod_small by lia. apply app_nil_r.
  - destruct (filled_Session_hit ping_fails maxSessions Hpos Hmax logger _ p w Hi Hf)
      as (c & Hlk & E1 & _).
    eexists hs, p, w, _, _, _.
    split; [exact ES|]. split; [exact Hlen|]. split; [exact E1|].
    cbn [sessionIndex set_sessionIndex sessions set_sessions mgo.trace].
    split; [exact Hidx|]. split; [fold i in Hidx; lia|].
    split; [rewrite Hidx; apply Hadv; reflexivity|].
    split; [apply Z.mod_pos_bound; lia|].
    split.
    + exists c. split; [exact Hlk|]. rewrite app_assoc. apply last_snoc.
    + erewrite since_extends; [|reflexivity].
      rewrite logged_app, logged_access. cbn. apply app_nil_r.
Qed.

(** C3.  On a fresh pool with [maxSessions >= 1], after exactly
    [maxSessions] calls of [Session] every slot holds a session (the
    slice has [maxSessions] entries, all non-nil), and one more call
    creates nothing: it leaves the slots as they are, copies no session,
    and returns a clone of the session already in slot 0. *)
Theorem C3_capacity
  (ping_fails : list mgo.Event -> mgo.Session -> bool)
  (logger0 : Logger) (s : mgo.Session) (maxSessions : Z) (w0 : mgo.World)
  (p0 : Pool) (w1 : mgo.World) (loggers : list Logger) (logger : Logger) :
  1 <= maxSessions ->
  is_int maxSessions ->
  NewPool logger0 s maxSessions w0 = (Ok p0, w1) ->
  Z.of_nat (length loggers) = maxSessions ->
  exists hs p w c,
    Sessions ping_fails loggers (p0, w1) = (Ok hs, (p, w)) /\
    Z.of_nat (length (sessions p)) = maxSessions /\
    Forall is_Some (sessions p) /\
    Z.of_nat (populated (sessions p)) = maxSessions /\
    sessions p !! 0%nat = Some (Some c) /\
    Session ping_fails logger (p, w) =
      (Ok (mgo.next w),
       (set_sessionIndex (1 mod maxSessions) p,
        mgo.mkWorld (S (mgo.next w))
          (mgo.trace w ++ access_events logger (Reusing 0)
             ++ [mgo.EvClone c (mgo.next w)]))).
Proof.
  intros Hpos [_ Hmax] E Hn.
  pose proof (filled_NewPool maxSessions Hpos logger0 s w0 p0 w1 E) as Hf0.
  destruct (filled_Sessions ping_fails maxSessions Hpos Hmax loggers 0 p0 w1 Hf0)
    as (hs & p & w & ES & Hlen & Hf).
  cbn [Nat.add] in Hf.
  pose proof Hf as (_ & Hl & _).
  assert (Hge : maxSessions <= Z.of_nat (length loggers)) by lia.
  destruct (filled_full maxSessions _ p Hge Hf) as [Hall Hpop].
  destruct (filled_Session_hit ping_fails maxSessions Hpos Hmax logger _ p w Hge Hf)
    as (c & Hlk & E1 & _).
  rewrite Hn, Z.mod_same in Hlk, E1 by lia. cbn [Z.to_nat] in Hlk.
  replace (Z.of_nat (S (length loggers))) with (maxSessions + 1) in E1 by lia.
  rewrite <- Z.add_mod_idemp_l, Z.mod_same in E1 by lia. cbn [Z.add] in E1.
  exists hs, p, w, c.
  split; [exact ES|]. split; [exact Hl|]. split; [exact Hall|].
  split; [rewrite Hpop; exact Hl|]. split; [exact Hlk|exact E1].
Qed.

(** ** Claims about one call on an open pool *)

(** What [Session] does on an open pool whose cursor points at [slot]. *)
Lemma Session_open
  (ping_fails : list mgo.Event -> mgo.Session -> bool)
  (logger : Logger) (p : Pool) (w : mgo.World) (slot : option mgo.Session) :
  inv (p, w) ->
  closed p = false ->
  sessions p !! Z.to_nat (sessionIndex p) = Some slot ->
  exists h c p' w',
    Session ping_fails logger (p, w) = (Ok h, (p', w')) /\
    sessions p' !! Z.to_nat (sessionIndex p) = Some (Some c) /\
    list.last (mgo.trace w') = Some (mgo.EvClone c h) /\
    (forall j c', sessions p' !! j = Some (Some c') -> h <> c') /\
    h <> session p' /\
    match slot with
    | None =>
        c = mgo.next w /\
        sessions p' = <[Z.to_nat (sessionIndex p) := Some c]> (sessions p) /\
        let t := mgo.trace w ++ access_events logger (Creating (sessionIndex p))
                   ++ [mgo.EvCopy (session p) c] in
        mgo.trace w' = t ++ [mgo.EvPing c (ping_fails t c); mgo.EvClone c h]
    | Some c0 =>
        c = c0 /\
        sessions p' = sessions p /\
        mgo.trace w' = mgo.trace w ++ access_events logger (Reusing (sessionIndex p))
                         ++ [mgo.EvClone c h]
    end.
Proof.
  intros ([Hmax Hcur] & [Hbase Hslots] & _) Hc Hl. cbn [fst snd] in *.
  pose proof (lookup_lt_Some _ _ _ Hl) as Hlt.
  assert (Hi : 0 <= sessionIndex p).
  { destruct Hcur as [Hi|[Hnil _]]; [lia|]. rewrite Hnil in Hlt. simpl in Hlt. lia. }
  destruct slot as [c0|].
  - rewrite (Session_hit ping_fails logger p w c0 Hc Hi Hl).
    eexists _, c0, _, _. split; [reflexivity|].
    cbn [sessions set_sessionIndex session mgo.trace].
    split; [exact Hl|]. split; [rewrite app_assoc; apply last_snoc|].
    split; [intros j c' Hj; apply Hslots in Hj; lia|].
    split; [lia|]. repeat split; reflexivity.
  - pose proof (Session_miss ping_fails logger p w Hc Hi Hl) as E. cbv zeta in E.
    rewrite E. eexists _, (mgo.next w), _, _. split; [reflexivity|].
    cbn [sessions set_sessionIndex set_sessions session mgo.trace].
    split; [apply list_lookup_insert_eq; exact Hlt|].
    split; [apply last_two|].
    split.
    { intros j c' Hj.
      destruct (decide (j = Z.to_nat (sessionIndex p))) as [->|Hne].
      - rewrite list_lookup_insert_eq in Hj by exact Hlt. inversion Hj. lia.
      - rewrite list_lookup_insert_ne in Hj by congruence.
        apply Hslots in Hj. lia. }
    split; [lia|]. repeat split; reflexivity.
Qed.

(** C5.  In every open state reached from a pool built by [NewPool],
    [Session] returns normally.  If the slot under the cursor is nil, it
    copies the base session, pings the copy (the call returns and the
    copy is installed whatever [ping_fails] answers), and stores the copy
    in that slot; otherwise it leaves the slots as they are.  Either way
    the session returned is the result of [Clone] on the session in the
    slot, and differs from every session held in a slot and from the base
    session. *)
Theorem C5_Session_on_open_pool
  (ping_fails : list mgo.Event -> mgo.Session -> bool)
  (logger0 : Logger) (s : mgo.Session) (maxSessions : Z) (w0 : mgo.World)
  (p0 : Pool) (w1 : mgo.World) (cs : list Call)
  (logger : Logger) (slot : option mgo.Session) :
  is_int maxSessions ->
  NewPool logger0 s maxSessions w0 = (Ok p0, w1) ->
  let p := fst (run ping_fails logger0 cs (p0, w1)) in
  let w := snd (run ping_fails logger0 cs (p0, w1)) in
  closed p = false ->
  sessions p !! Z.to_nat (sessionIndex p) = Some slot ->
  exists h c p' w',
    Session ping_fails logger (p, w) = (Ok h, (p', w')) /\
    sessions p' !! Z.to_nat (sessionIndex p) = Some (Some c) /\
    list.last (mgo.trace w') = Some (mgo.EvClone c h) /\
    (forall j c', sessions p' !! j = Some (Some c') -> h <> c') /\
    h <> session p' /\
    match slot with
    | None =>
        c = mgo.next w /\
        sessions p' = <[Z.to_nat (sessionIndex p) := Some c]> (sessions p) /\
        let t := mgo.trace w ++ access_events logger (Creating (sessionIndex p))
                   ++ [mgo.EvCopy (session p) c] in
        mgo.trace w' = t ++ [mgo.EvPing c (ping_fails t c); mgo.EvClone c h]
    | Some c0 =>
        c = c0 /\
        sessions p' = sessions p /\
        mgo.trace w' = mgo.trace w ++ access_events logger (Reusing (sessionIndex p))
                         ++ [mgo.EvClone c h]
    end.
Proof.
  intros [_ Hmax] E p w Hc Hl.
  apply Session_open; [|exact Hc|exact Hl].
  subst p w. rewrite <- surjective_pairing.
  exact (inv_reachable ping_fails logger0 _ _ _ _ _ _ cs Hmax E).
Qed.

(** ** Degenerate sizes *)

(** [NewPool] with a negative [maxSessions] panics in [make]. *)
Lemma C9_negative_maxSessions_fails :
  returns (fst (NewPool nilLogger 0%nat (-1) dialled)) = false.
Proof. reflexivity. Qed.

(** C9 (amended).  For [maxSessions = 0], [NewPool] returns a pool with
    no slot, and on that pool no [Session] call ever returns, whatever is
    called before it; for [maxSessions < 0], [NewPool] itself panics,
    allocating the slice, before it has copied the base session. *)
Theorem C9_nonpositive_maxSessions
  (ping_fails : list mgo.Event -> mgo.Session -> bool)
  (logger0 : Logger) (s : mgo.Session) (maxSessions : Z) (w0 : mgo.World) :
  maxSessions <= 0 ->
  (maxSessions < 0 /\
   NewPool logger0 s maxSessions w0 = (Panicked MakesliceLenOutOfRange, w0))
  \/
  (maxSessions = 0 /\
   exists p0 w1,
     NewPool logger0 s maxSessions w0 = (Ok p0, w1) /\
     sessions p0 = [] /\
     closed p0 = false /\
     forall (cs : list Call) (logger : Logger),
       sessions (fst (run ping_fails logger0 cs (p0, w1))) = [] /\
       returns (fst (Session ping_fails logger (run ping_fails logger0 cs (p0, w1))))
       = false).
Proof.
  intros Hn. destruct (Z.eq_dec maxSessions 0) as [->|Hne].
  - right. split; [reflexivity|].
    eexists _, _. split; [apply NewPool_ok; fits|].
    split; [reflexivity|]. split; [reflexivity|].
    intros cs logger.
    set (st0 := (mkPool Alive (replicate (Z.to_nat 0) None) 0 (mgo.next w0) false,
                 mgo.mkWorld (S (mgo.next w0)) (mgo.trace w0 ++ [mgo.EvCopy s (mgo.next w0)]))).
    assert (Hinv0 : inv st0).
    { apply (inv_NewPool logger0 s 0 w0); [unfold int_max; lia|apply NewPool_ok; fits]. }
    pose proof (inv_run ping_fails logger0 cs st0 Hinv0) as Hinv.
    pose proof (length_run ping_fails logger0 cs st0 Hinv0) as Hlen.
    destruct (run ping_fails logger0 cs st0) as [p w]. cbn [fst snd] in *.
    assert (Hnil : sessions p = []) by (apply length_zero_iff_nil; exact Hlen).
    split; [exact Hnil|].
    apply Session_fails; [exact (proj1 Hinv)|right; exact Hnil].
  - left. split; [lia|]. apply NewPool_negative. lia.
Qed.

(** ** The example scenario *)

(** C1, as the specification states it, cannot happen: with three slots,
    after four calls and a [Reset], the next [Session] does not log a
    creation at index 0. *)
Lemma C1_creation_at_0_after_Reset_fails :
  ~ exists p0 w1 hs p w h p' w',
      NewPool nilLogger 0%nat 3 dialled = (Ok p0, w1) /\
      Sessions never_fails
        [sinkLogger 0; sinkLogger 0; sinkLogger 0; sinkLogger 0] (p0, w1)
      = (Ok hs, (p, w)) /\
      (Reset ;; Session never_fails (sinkLogger 0)) (p, w) = (Ok h, (p', w')) /\
      logged (since w w') = access_events (sinkLogger 0) (Creating 0).
Proof.
  intros (p0 & w1 & hs & p & w & h & p' & w' & E1 & E2 & E3 & E4).
  vm_compute in E1. inversion E1; subst p0 w1; clear E1.
  vm_compute in E2. inversion E2; subst hs p w; clear E2.
  vm_compute in E3. inversion E3; subst h p' w'; clear E3.
  vm_compute in E4. discriminate E4.
Qed.

(** C1 (amended).  On a fresh pool with three slots, four [Session]
    calls log, in order: creating at 0, at 1, at 2, then reusing 0; a
    [Reset] followed by one more [Session] then logs a creation at
    index 1, where the cursor stood. *)
Theorem C1_example_scenario
  (ping_fails : list mgo.Event -> mgo.Session -> bool)
  (logger0 : Logger) (s : mgo.Session) (w0 : mgo.World) (sink : nat) :
  exists p0 w1 hs p w h p' w',
    NewPool logger0 s 3 w0 = (Ok p0, w1) /\
    Sessions ping_fails
      [sinkLogger sink; sinkLogger sink; sinkLogger sink; sinkLogger sink] (p0, w1)
    = (Ok hs, (p, w)) /\
    logged (since w1 w) =
      access_events (sinkLogger sink) (Creating 0) ++
      access_events (sinkLogger sink) (Creating 1) ++
      access_events (sinkLogger sink) (Creating 2) ++
      access_events (sinkLogger sink) (Reusing 0) /\
    (Reset ;; Session ping_fails (sinkLogger sink)) (p, w) = (Ok h, (p', w')) /\
    logged (since w w') = access_events (sinkLogger sink) (Creating 1).
Proof.
  destruct w0 as [nx t0].
  eexists _, _, _, _, _, _, _, _.
  split; [reflexivity|].
  split; [cbv -[app]; reflexivity|].
  split.
  { erewrite since_extends; [|cbn [mgo.trace]; rewrite <- !app_assoc; reflexivity].
    reflexivity. }
  split; [cbv -[app]; reflexivity|].
  erewrite since_extends; [|cbn [mgo.trace]; rewrite <- !app_assoc; reflexivity].
  reflexivity.
Qed.

(** ** The theorems at concrete pools *)

Lemma is_int_3 : is_int 3.
Proof. unfold is_int, int_min, int_max. lia. Defined.

Lemma NewPool_fresh3 : NewPool nilLogger 0%nat 3 dialled = (Ok (fst fresh3), snd fresh3).
Proof. reflexivity. Defined.

Lemma C2_round_robin_witness :
  1 <= 3 /\ is_int 3 /\
  NewPool nilLogger 0%nat 3 dialled = (Ok (fst fresh3), snd fresh3) /\
  exists hs p w h p' w',
    Sessions never_fails [nullLogger; nullLogger] fresh3 = (Ok hs, (p, w)) /\
    Session never_fails (sinkLogger 0) (p, w) = (Ok h, (p', w')) /\
    sessionIndex p = 2 /\
    sessionIndex p' = (sessionIndex p + 1) mod 3 /\
    logged (since w w') = access_events (sinkLogger 0) (Creating 2).
Proof.
  assert (H1 : 1 <= 3) by lia.
  split; [exact H1|]. split; [exact is_int_3|]. split; [exact NewPool_fresh3|].
  destruct (C2_round_robin never_fails nilLogger 0%nat 3 dialled (fst fresh3) (snd fresh3)
              [nullLogger; nullLogger] (sinkLogger 0) H1 is_int_3 NewPool_fresh3)
    as (hs & p & w & h & p' & w' & ES & _ & E1 & Hi & _ & Hi' & _ & _ & Hlog).
  exists hs, p, w, h, p', w'.
  split; [exact ES|]. split; [exact E1|]. split; [exact Hi|].
  split; [exact Hi'|exact Hlog].
Defined.

Lemma C3_capacity_witness :
  1 <= 3 /\ is_int 3 /\
  NewPool nilLogger 0%nat 3 dialled = (Ok (fst fresh3), snd fresh3) /\
  Z.of_nat (length [nullLogger; nullLogger; nullLogger]) = 3 /\
  exists hs p w c,
    Sessions never_fails [nullLogger; nullLogger; nullLogger] fresh3 = (Ok hs, (p, w)) /\
    Forall is_Some (sessions p) /\
    sessions p !! 0%nat = Some (Some c) /\
    fst (Session never_fails (sinkLogger 0) (p, w)) = Ok (mgo.next w).
Proof.
  assert (H1 : 1 <= 3) by lia.
  assert (H4 : Z.of_nat (length [nullLogger; nullLogger; nullLogger]) = 3) by reflexivity.
  split; [exact H1|]. split; [exact is_int_3|]. split; [exact NewPool_fresh3|].
  split; [exact H4|].
  destruct (C3_capacity never_fails nilLogger 0%nat 3 dialled (fst fresh3) (snd fresh3)
              [nullLogger; nullLogger; nullLogger] (sinkLogger 0)
              H1 is_int_3 NewPool_fresh3 H4)
    as (hs & p & w & c & ES & _ & Hall & _ & Hlk & E1).
  exists hs, p, w, c.
  split; [exact ES|]. split; [exact Hall|]. split; [exact Hlk|].
  rewrite E1. reflexivity.
Defined.

Lemma C5_Session_on_open_pool_witness :
  is_int 3 /\
  NewPool nilLogger 0%nat 3 dialled = (Ok (fst fresh3), snd fresh3) /\
  closed (fst (run always_fails nilLogger [CallSession nullLogger] fresh3)) = false /\
  sessions (fst (run always_fails nilLogger [CallSession nullLogger] fresh3))
    !! Z.to_nat (sessionIndex (fst (run always_fails nilLogger [CallSession nullLogger] fresh3)))
  = Some None /\
  exists h c p' w',
    Session always_fails nullLogger
      (run always_fails nilLogger [CallSession nullLogger] fresh3) = (Ok h, (p', w')) /\
    sessions p' !! 1%nat = Some (Some c) /\
    h <> c.
Proof.
  assert (Hc : closed (fst (run always_fails nilLogger [CallSession nullLogger] fresh3))
               = false) by (vm_compute; reflexivity).
  assert (Hl : sessions (fst (run always_fails nilLogger [CallSession nullLogger] fresh3))
    !! Z.to_nat (sessionIndex (fst (run always_fails nilLogger [CallSession nullLogger] fresh3)))
    = Some None) by (vm_compute; reflexivity).
  split; [exact is_int_3|]. split; [exact NewPool_fresh3|].
  split; [exact Hc|]. split; [exact Hl|].
  destruct (C5_Session_on_open_pool always_fails nilLogger 0%nat 3 dialled
              (fst fresh3) (snd fresh3) [CallSession nullLogger] nullLogger None
              is_int_3 NewPool_fresh3 Hc Hl)
    as (h & c & p' & w' & E & Hslot & _ & Hne & _).
  exists h, c, p', w'. split; [exact E|]. split; [exact Hslot|].
  exact (Hne _ _ Hslot).
Defined.

Lemma C8_closed_is_final_witness :
  is_int 3 /\
  NewPool nilLogger 0%nat 3 dialled = (Ok (fst fresh3), snd fresh3) /\
  closed (fst (run never_fails nilLogger [CallSession nullLogger; CallClose] fresh3)) = true /\
  all_nil (sessions (fst (run never_fails nilLogger
                            [CallSession nullLogger; CallClose] fresh3))) /\
  returns (fst (Session never_fails nullLogger
                  (run never_fails nilLogger
                     ([CallSession nullLogger; CallClose] ++ [CallReset]) fresh3)))
  = false.
Proof.
  assert (Hc : closed (fst (run never_fails nilLogger
                              [CallSession nullLogger; CallClose] fresh3)) = true)
    by (vm_compute; reflexivity).
  split; [exact is_int_3|]. split; [exact NewPool_fresh3|]. split; [exact Hc|].
  destruct (C8_closed_is_final never_fails nilLogger 0%nat 3 dialled
              (fst fresh3) (snd fresh3) [CallSession nullLogger; CallClose]
              is_int_3 NewPool_fresh3 Hc) as [Hnil Hlater].
  split; [exact Hnil|].
  exact (proj2 (proj2 (Hlater [CallReset] nullLogger))).
Defined.

Lemma C9_nonpositive_maxSessions_witness :
  0 <= 0 /\
  exists p0 w1,
    NewPool nilLogger 0%nat 0 dialled = (Ok p0, w1) /\
    sessions p0 = [] /\
    returns (fst (Session never_fails nullLogger (p0, w1))) = false.
Proof.
  assert (H0 : 0 <= 0) by lia.
  split; [exact H0|].
  destruct (C9_nonpositive_maxSessions never_fails nilLogger 0%nat 0 dialled H0)
    as [[Hneg _] | (_ & p0 & w1 & E & Hnil & _ & Hno)].
  - exfalso. lia.
  - exists p0, w1. split; [exact E|]. split; [exact Hnil|].
    exact (proj2 (Hno [] nullLogger)).
Defined.

Lemma C10_Reset_touches_only_slots_witness :
  run never_fails nilLogger [CallSession nilLogger; CallSession nilLogger] fresh3 = busy3 /\
  closed (fst busy3) = false /\
  0 <= sessionIndex (fst busy3) < Z.of_nat (length (sessions (fst busy3))) /\
  exists st' h st'',
    Reset busy3 = (Ok tt, st') /\
    sessions (fst st') = [None; None; None] /\
    mgo.trace (snd st') = mgo.trace (snd busy3) ++ [mgo.EvClose 2%nat; mgo.EvClose 4%nat] /\
    sessionIndex (fst st') = 2 /\
    closed (fst st') = false /\
    session (fst st') = 1%nat /\
    Session never_fails (sinkLogger 0) st' = (Ok h, st'') /\
    sessions (fst st'') = [None; None; Some 6%nat] /\
    logged (since (snd st') (snd st'')) = access_events (sinkLogger 0) (Creating 2).
Proof.
  assert (Hr : run never_fails nilLogger [CallSession nilLogger; CallSession nilLogger]
                 fresh3 = busy3) by (vm_compute; reflexivity).
  assert (Hc : closed (fst busy3) = false) by reflexivity.
  assert (Hi : 0 <= sessionIndex (fst busy3) < Z.of_nat (length (sessions (fst busy3))))
    by (cbn; lia).
  split; [exact Hr|]. split; [exact Hc|]. split; [exact Hi|].
  destruct (C10_Reset_touches_only_slots never_fails busy3)
    as (st' & ER & Hidx & Hcl & Hbase & _ & Hsl & _ & Htr & Hnext).
  destruct (Hnext (sinkLogger 0) Hc Hi) as (h & st'' & ES & Hsl' & Hlog).
  exists st', h, st''. split; [exact ER|]. split; [exact Hsl|]. split; [exact Htr|].
  split; [exact Hidx|]. split; [exact Hcl|]. split; [exact Hbase|].
  split; [exact ES|]. split; [|exact Hlog].
  rewrite Hsl', Hsl. reflexivity.
Defined.

(** * Further properties of the pool *)

(** ** Session on an arbitrary pool value *)

(** Whatever the pool struct holds, [Session] goes one of four ways. *)
Lemma Session_any
  (ping_fails : list mgo.Event -> mgo.Session -> bool)
  (logger : Logger) (p : Pool) (w : mgo.World) :
  (closed p = true /\
   Session ping_fails logger (p, w) =
     (Panicked (PanicString "Session called on closed Pool"), (p, w)))
  \/ (closed p = false /\
      (sessionIndex p < 0 \/ Z.of_nat (length (sessions p)) <= sessionIndex p) /\
      Session ping_fails logger (p, w) =
        (Panicked (IndexOutOfRange (sessionIndex p) (Z.of_nat (length (sessions p)))),
         (p, w)))
  \/ (closed p = false /\
      0 <= sessionIndex p < Z.of_nat (length (sessions p)) /\
      sessions p !! Z.to_nat (sessionIndex p) = Some None /\
      exists failed,
        Session ping_fails logger (p, w) =
          (Ok (S (mgo.next w)),
           (set_sessionIndex (next_index p)
              (set_sessions
                 (<[Z.to_nat (sessionIndex p) := Some (mgo.next w)]> (sessions p)) p),
            mgo.mkWorld (S (S (mgo.next w)))
              (mgo.trace w ++ access_events logger (Creating (sessionIndex p))
                 ++ [mgo.EvCopy (session p) (mgo.next w);
                     mgo.EvPing (mgo.next w) failed;
                     mgo.EvClone (mgo.next w) (S (mgo.next w))]))))
  \/ (closed p = false /\
      0 <= sessionIndex p < Z.of_nat (length (sessions p)) /\
      exists c,
        sessions p !! Z.to_nat (sessionIndex p) = Some (Some c) /\
        Session ping_fails logger (p, w) =
          (Ok (mgo.next w),
           (set_sessionIndex (next_index p) p,
            mgo.mkWorld (S (mgo.next w))
              (mgo.trace w ++ access_events logger (Reusing (sessionIndex p))
                 ++ [mgo.EvClone c (mgo.next w)])))).
Proof.
  destruct (closed p) eqn:Hc.
  { left. split; [reflexivity|]. apply Session_closed. exact Hc. }
  right.
  destruct (Z.lt_ge_cases (sessionIndex p) 0) as [Hneg|Hi].
  { left. split; [reflexivity|]. split; [left; exact Hneg|].
    apply Session_no_slot; [exact Hc|left; exact Hneg]. }
  destruct (Z.lt_ge_cases (sessionIndex p) (Z.of_nat (length (sessions p)))) as [Hlt|Hge].
  2:{ left. split; [reflexivity|]. split; [right; exact Hge|].
      apply Session_no_slot; [exact Hc|right; exact Hge]. }
  right.
  destruct (lookup_lt_is_Some_2 (sessions p) (Z.to_nat (sessionIndex p)))
    as [[c|] Hl]; [lia| |].
  - right. split; [reflexivity|]. split; [split; assumption|].
    exists c. split; [exact Hl|]. apply Session_hit; assumption.
  - left. split; [reflexivity|]. split; [split; assumption|]. split; [exact Hl|].
    eexists. rewrite (Session_miss ping_fails logger p w Hc Hi Hl).
    cbv zeta. rewrite <- !app_assoc. reflexivity.
Qed.

(** X1.  A [Session] call that panics has changed nothing: pool and
    world are exactly as before the call.  It panics only on a closed
    pool, or on an open one whose cursor is outside the slice. *)
Theorem X1_Session_panic_changes_nothing
  (ping_fails : list mgo.Event -> mgo.Session -> bool)
  (logger : Logger) (st : St) (e : Panic) :
  fst (Session ping_fails logger st) = Panicked e ->
  snd (Session ping_fails logger st) = st /\
  ((closed (fst st) = true /\ e = PanicString "Session called on closed Pool")
   \/ (closed (fst st) = false /\
       (sessionIndex (fst st) < 0 \/
        Z.of_nat (length (sessions (fst st))) <= sessionIndex (fst st)) /\
       e = IndexOutOfRange (sessionIndex (fst st))
             (Z.of_nat (length (sessions (fst st)))))).
Proof.
  destruct st as [p w]. cbn [fst snd].
  destruct (Session_any ping_fails logger p w)
    as [[Hc E] | [(Hc & Hi & E) | [(Hc & Hi & Hl & r & E) | (Hc & Hi & c & Hl & E)]]];
    rewrite E; cbn [fst snd]; intros He; try discriminate;
    inversion He; subst e; (split; [reflexivity|]).
  - left. split; [exact Hc|reflexivity].
  - right. split; [exact Hc|]. split; [exact Hi|reflexivity].
Qed.

(** X2.  [Session] never touches the closed flag, the base session, the
    tomb or the length of the slice; it changes no slot other than the
    one under the cursor; it allocates at most two sessions and only adds
    to the trace. *)
Theorem X2_Session_frame
  (ping_fails : list mgo.Event -> mgo.Session -> bool)
  (logger : Logger) (st : St) :
  let st' := snd (Session ping_fails logger st) in
  closed (fst st') = closed (fst st) /\
  session (fst st') = session (fst st) /\
  tomb (fst st') = tomb (fst st) /\
  length (sessions (fst st')) = length (sessions (fst st)) /\
  (forall j, j <> Z.to_nat (sessionIndex (fst st)) ->
             sessions (fst st') !! j = sessions (fst st) !! j) /\
  (mgo.next (snd st) <= mgo.next (snd st') <= mgo.next (snd st) + 2)%nat /\
  exists t, mgo.trace (snd st') = mgo.trace (snd st) ++ t.
Proof.
  destruct st as [p w]. cbn [fst snd].
  destruct (Session_any ping_fails logger p w)
    as [[Hc E] | [(Hc & Hi & E) | [(Hc & Hi & Hl & r & E) | (Hc & Hi & c & Hl & E)]]];
    rewrite E; cbn [fst snd closed session tomb sessions set_sessionIndex
                    set_sessions mgo.next mgo.trace];
    rewrite ?length_insert;
    do 4 (split; [reflexivity|]).
  - split; [reflexivity|]. split; [lia|]. exists []. symmetry. apply app_nil_r.
  - split; [reflexivity|]. split; [lia|]. exists []. symmetry. apply app_nil_r.
  - split; [intros j Hj; apply list_lookup_insert_ne; congruence|].
    split; [lia|]. eexists. reflexivity.
  - split; [reflexivity|]. split; [lia|]. eexists. reflexivity.
Qed.

(** X3.  The logger decides nothing: with any two loggers, [Session]
    gives the same result (the same session or the same panic), leaves
    the same pool, and allocates the same sessions. *)
Theorem X3_Session_whatever_the_logger
  (ping_fails : list mgo.Event -> mgo.Session -> bool)
  (logger1 logger2 : Logger) (st : St) :
  fst (Session ping_fails logger1 st) = fst (Session ping_fails logger2 st) /\
  fst (snd (Session ping_fails logger1 st)) = fst (snd (Session ping_fails logger2 st)) /\
  mgo.next (snd (snd (Session ping_fails logger1 st)))
  = mgo.next (snd (snd (Session ping_fails logger2 st))).
Proof.
  destruct st as [p w].
  destruct (Session_any ping_fails logger1 p w)
    as [[Hc E] | [(Hc & Hi & E) | [(Hc & Hi & Hl & r & E) | (Hc & Hi & c & Hl & E)]]];
    rewrite E.
  - rewrite Session_closed by exact Hc. repeat split.
  - rewrite Session_no_slot by assumption. repeat split.
  - rewrite (Session_miss ping_fails logger2 p w Hc (proj1 Hi) Hl). repeat split.
  - rewrite (Session_hit ping_fails logger2 p w c Hc (proj1 Hi) Hl). repeat split.
Qed.

(** ** Handles handed out *)

Lemma Sessions_handles
  (ping_fails : list mgo.Event -> mgo.Session -> bool)
  (loggers : list Logger) : forall (st : St) hs st',
  Sessions ping_fails loggers st = (Ok hs, st') ->
  (mgo.next (snd st) <= mgo.next (snd st'))%nat /\
  Forall (fun h => mgo.next (snd st) <= h < mgo.next (snd st'))%nat hs /\
  NoDup hs.
Proof.
  induction loggers as [|l rest IH]; intros [p w] hs st' E.
  - inversion E; subst. cbn. split; [lia|]. split; constructor.
  - cbn [Sessions] in E. unfold bind at 1 in E.
    destruct (Session ping_fails l (p, w)) as [[h|e] [p1 w1]] eqn:E1; [|discriminate].
    unfold bind at 1 in E.
    destruct (Sessions ping_fails rest (p1, w1)) as [[hs'|e] st2] eqn:E2; [|discriminate].
    inversion E; subst hs st'; clear E.
    destruct (IH _ _ _ E2) as (Hle & Hall & Hnd). cbn [fst snd] in *.
    assert (Hh : (mgo.next w <= h < mgo.next w1)%nat).
    { destruct (Session_any ping_fails l p w)
        as [[Hc E] | [(Hc & Hi & E) | [(Hc & Hi & Hl & r & E) | (Hc & Hi & c & Hl & E)]]];
        rewrite E in E1; inversion E1; subst; cbn; lia. }
    split; [lia|]. split.
    + constructor; [lia|]. eapply Forall_impl; [exact Hall|]. cbn. intros x Hx. lia.
    + constructor; [|exact Hnd]. intros Hin.
      rewrite Forall_forall in Hall.
      specialize (Hall _ Hin). cbn in Hall. lia.
Qed.

(** X10.  The sessions returned by a run of [Session] calls are pairwise
    different, and each was allocated during the run: no two callers are
    ever given the same session, and none is given one that existed
    before. *)
Theorem X10_Sessions_return_distinct_handles
  (ping_fails : list mgo.Event -> mgo.Session -> bool)
  (loggers : list Logger) (st : St) (hs : list mgo.Session) (st' : St) :
  Sessions ping_fails loggers st = (Ok hs, st') ->
  NoDup hs /\
  Forall (fun h => mgo.next (snd st) <= h < mgo.next (snd st'))%nat hs.
Proof.
  intros E. destruct (Sessions_handles ping_fails loggers st hs st' E) as (_ & Hall & Hnd).
  split; assumption.
Qed.

(** ** Reset and Close once more *)

(** X6.  A second [Reset] right after a [Reset] does nothing at all: no
    slot changes and no session is closed again. *)
Theorem X6_Reset_twice
  (st : St) :
  Reset (snd (Reset st)) = (Ok tt, snd (Reset st)).
Proof.
  destruct st as [p w]. rewrite Reset_spec. cbn [snd]. rewrite Reset_spec.
  cbn [fst snd sessions set_sessions mgo.next mgo.trace].
  rewrite length_replicate, (closes_of_all_nil _ (all_nil_replicate _)), app_nil_r.
  reflexivity.
Qed.

(** X7.  The first [Close] of an open pool closes the sessions held in
    the slots, in slot order, and the base session last; it empties every
    slot, sets the closed flag, leaves the tomb dead and the cursor where
    it was, and allocates nothing. *)
Theorem X7_Close_of_open_pool
  (p : Pool) (w : mgo.World) :
  closed p = false ->
  Close (p, w) =
    (Ok tt,
     (mkPool Dead (replicate (length (sessions p)) None) (sessionIndex p)
        (session p) true,
      mgo.mkWorld (mgo.next w)
        (mgo.trace w ++ closes_of (sessions p) ++ [mgo.EvClose (session p)]))).
Proof. apply Close_open. Qed.

(** ** The slice and the cursor in every reachable state *)

Lemma length_NewPool logger s n w0 p0 w1 :
  NewPool logger s n w0 = (Ok p0, w1) ->
  0 <= n /\ length (sessions p0) = Z.to_nat n /\
  sessionIndex p0 = 0 /\ closed p0 = false /\ tomb p0 = Alive /\
  session p0 = mgo.next w0.
Proof.
  intros E. destruct (NewPool_returns _ _ _ _ _ _ E) as (Hn & Hfit & E0).
  rewrite E0 in E. inversion E; subst p0 w1; clear E.
  cbn. rewrite length_replicate. repeat split; try reflexivity. exact Hn.
Qed.

(** X4.  [len(p.sessions)] is [maxSessions] for the whole life of the
    pool: no call, in any order and number, makes the slice longer or
    shorter. *)
Theorem X4_slice_length_is_fixed
  (ping_fails : list mgo.Event -> mgo.Session -> bool)
  (logger0 : Logger) (s : mgo.Session) (maxSessions : Z) (w0 : mgo.World)
  (p0 : Pool) (w1 : mgo.World) (cs : list Call) :
  is_int maxSessions ->
  NewPool logger0 s maxSessions w0 = (Ok p0, w1) ->
  Z.of_nat (length (sessions (fst (run ping_fails logger0 cs (p0, w1))))) = maxSessions.
Proof.
  intros [_ Hmax] E.
  rewrite (length_run ping_fails logger0 cs (p0, w1) (inv_NewPool _ _ _ _ _ _ Hmax E)).
  destruct (length_NewPool _ _ _ _ _ _ E) as (Hn & Hlen & _). cbn [fst].
  rewrite Hlen. lia.
Qed.

(** X5.  On a pool built with [maxSessions >= 1] the cursor is a valid
    index of the slice in every reachable state, whatever mix of
    [Session], [Reset], [Close] and pinger ticks led there. *)
Theorem X5_cursor_stays_in_range
  (ping_fails : list mgo.Event -> mgo.Session -> bool)
  (logger0 : Logger) (s : mgo.Session) (maxSessions : Z) (w0 : mgo.World)
  (p0 : Pool) (w1 : mgo.World) (cs : list Call) :
  1 <= maxSessions ->
  is_int maxSessions ->
  NewPool logger0 s maxSessions w0 = (Ok p0, w1) ->
  0 <= sessionIndex (fst (run ping_fails logger0 cs (p0, w1))) < maxSessions.
Proof.
  intros Hpos [_ Hmax] E.
  pose proof (inv_reachable ping_fails logger0 _ _ _ _ _ _ cs Hmax E) as ([_ Hcur] & _).
  pose proof (length_run ping_fails logger0 cs (p0, w1) (inv_NewPool _ _ _ _ _ _ Hmax E))
    as Hlen.
  destruct (length_NewPool _ _ _ _ _ _ E) as (Hn & Hlen0 & _). cbn [fst] in Hlen.
  destruct Hcur as [Hi|[Hnil _]].
  - rewrite Hlen, Hlen0 in Hi. lia.
  - rewrite Hnil in Hlen. simpl in Hlen. lia.
Qed.

(** ** The pinger's loop *)

Lemma pinger_iteration_completes
  (ping_fails : list mgo.Event -> mgo.Session -> bool)
  (logger : Logger) (st : St) :
  inv st ->
  tomb (fst st) = Alive ->
  sessions (fst st) <> [] ->
  exists st',
    pinger_iteration ping_fails logger st = (Ok tt, st') /\
    inv st' /\
    tomb (fst st') = Alive /\
    length (sessions (fst st')) = length (sessions (fst st)).
Proof.
  intros Hinv Halive Hne.
  pose proof (inv_pinger_iteration ping_fails logger st Hinv) as Hinv'.
  destruct st as [p w]. cbn [fst snd] in *.
  pose proof Hinv as ([_ Hcur] & _ & Hcl). cbn [fst] in *.
  assert (Hc : closed p = false).
  { destruct (closed p) eqn:Hc; [|reflexivity].
    destruct (Hcl Hc) as [_ Hd]. congruence. }
  destruct (lookup_lt_is_Some_2 (sessions p) (Z.to_nat (sessionIndex p)))
    as [slot Hl].
  { destruct Hcur as [Hi|[Hnil _]]; [lia|contradiction]. }
  destruct (Session_open ping_fails logger p w slot Hinv Hc Hl)
    as (h & c & p1 & w2 & ES & _).
  pose proof (X := Session_any ping_fails logger p w).
  assert (Hp1 : tomb p1 = Alive /\ length (sessions p1) = length (sessions p)).
  { destruct X as [[Hc' E] | [(Hc' & Hi & E) | [(Hc' & Hi & Hl' & r & E) | (Hc' & Hi & c' & Hl' & E)]]];
      rewrite E in ES; inversion ES; subst; cbn; rewrite ?length_insert;
      split; (exact Halive || reflexivity). }
  destruct Hp1 as [Ht1 Hlen1].
  rewrite pinger_iteration_unfold, ES in Hinv' |- *. cbv zeta in Hinv' |- *.
  destruct (ping_fails (mgo.trace w2) h); cbn [snd] in Hinv'.
  - eexists. split; [reflexivity|]. split; [exact Hinv'|].
    cbn. rewrite length_replicate. split; assumption.
  - eexists. split; [reflexivity|]. split; [exact Hinv'|].
    cbn. split; assumption.
Qed.

Lemma pinger_loop
  (ping_fails : list mgo.Event -> mgo.Session -> bool)
  (logger : Logger) (wake : list Select) : forall st : St,
  inv st ->
  tomb (fst st) = Alive ->
  sessions (fst st) <> [] ->
  exists r st',
    pinger ping_fails wake logger st = (Ok r, st') /\
    (r = Returned <-> In DyingCase wake) /\
    tomb (fst st') = Alive /\
    length (sessions (fst st')) = length (sessions (fst st)).
Proof.
  induction wake as [|[|] wake IH]; intros st Hinv Halive Hne.
  - exists Waiting, st. split; [reflexivity|].
    split; [split; [discriminate|intros []]|]. split; [exact Halive|reflexivity].
  - exists Returned, st. split; [reflexivity|].
    split; [split; [intros _; left; reflexivity|reflexivity]|].
    split; [exact Halive|reflexivity].
  - destruct (pinger_iteration_completes ping_fails logger st Hinv Halive Hne)
      as (st1 & E1 & Hinv1 & Halive1 & Hlen1).
    assert (Hne1 : sessions (fst st1) <> []).
    { intros Hnil. rewrite Hnil in Hlen1. symmetry in Hlen1.
      apply length_zero_iff_nil in Hlen1. contradiction. }
    destruct (IH st1 Hinv1 Halive1 Hne1) as (r & st' & E & Hr & Halive' & Hlen').
    exists r, st'. split; [|split; [|split]].
    + cbn [pinger]. unfold bind at 1. rewrite E1. exact E.
    + rewrite Hr. split; [intros H; right; exact H|].
      intros [H|H]; [discriminate|exact H].
    + exact Halive'.
    + rewrite Hlen'. exact Hlen1.
Qed.

(** X8.  On a pool built with [maxSessions >= 1], in any reachable state
    where the tomb is alive, the pinger never panics: however many times
    its timer fires it completes every iteration, and it returns exactly
    when the dying case of its [select] is taken; it leaves the tomb
    alive and the pool open. *)
Theorem X8_pinger_never_panics
  (ping_fails : list mgo.Event -> mgo.Session -> bool)
  (logger0 : Logger) (s : mgo.Session) (maxSessions : Z) (w0 : mgo.World)
  (p0 : Pool) (w1 : mgo.World) (cs : list Call)
  (logger : Logger) (wake : list Select) :
  1 <= maxSessions ->
  is_int maxSessions ->
  NewPool logger0 s maxSessions w0 = (Ok p0, w1) ->
  tomb (fst (run ping_fails logger0 cs (p0, w1))) = Alive ->
  exists r st',
    pinger ping_fails wake logger (run ping_fails logger0 cs (p0, w1)) = (Ok r, st') /\
    (r = Returned <-> In DyingCase wake) /\
    tomb (fst st') = Alive /\
    closed (fst st') = false.
Proof.
  intros Hpos [_ Hmax] E Halive.
  pose proof (inv_reachable ping_fails logger0 _ _ _ _ _ _ cs Hmax E) as Hinv.
  pose proof (length_run ping_fails logger0 cs (p0, w1) (inv_NewPool _ _ _ _ _ _ Hmax E))
    as Hlen.
  destruct (length_NewPool _ _ _ _ _ _ E) as (Hn & Hlen0 & _). cbn [fst] in Hlen.
  assert (Hne : sessions (fst (run ping_fails logger0 cs (p0, w1))) <> []).
  { intros Hnil. rewrite Hnil in Hlen. simpl in Hlen. lia. }
  destruct (pinger_loop ping_fails logger wake _ Hinv Halive Hne)
    as (r & st' & Ep & Hr & Halive' & Hlen').
  exists r, st'. split; [exact Ep|]. split; [exact Hr|]. split; [exact Halive'|].
  assert (Hinv' : inv st').
  { clear -Ep Hinv Halive Hne. revert Ep Hinv Halive Hne.
    generalize (run ping_fails logger0 cs (p0, w1)). 
    induction wake as [|[|] wake IH]; intros st Ep Hinv Halive Hne.
    - inversion Ep; subst. exact Hinv.
    - inversion Ep; subst. exact Hinv.
    - destruct (pinger_iteration_completes ping_fails logger st Hinv Halive Hne)
        as (st1 & E1 & Hinv1 & Halive1 & Hlen1).
      cbn [pinger] in Ep. unfold bind at 1 in Ep. rewrite E1 in Ep.
      apply (IH st1 Ep Hinv1 Halive1).
      intros Hnil. rewrite Hnil in Hlen1. symmetry in Hlen1.
      apply length_zero_iff_nil in Hlen1. contradiction. }
  destruct Hinv' as (_ & _ & Hcl).
  destruct (closed (fst st')) eqn:Hc; [|reflexivity].
  destruct (Hcl Hc) as [_ Hd]. congruence.
Qed.

(** X9.  On a pool built with [maxSessions = 0] the pinger cannot run:
    the first time its timer fires, its [Session] call panics with index
    0 out of range of a slice of length 0, before anything has been
    touched. *)
Theorem X9_pinger_panics_on_empty_pool
  (ping_fails : list mgo.Event -> mgo.Session -> bool)
  (logger0 : Logger) (s : mgo.Session) (w0 : mgo.World)
  (p0 : Pool) (w1 : mgo.World) (cs : list Call)
  (logger : Logger) (rest : list Select) :
  NewPool logger0 s 0 w0 = (Ok p0, w1) ->
  tomb (fst (run ping_fails logger0 cs (p0, w1))) = Alive ->
  pinger ping_fails (ClockCase :: rest) logger (run ping_fails logger0 cs (p0, w1))
  = (Panicked (IndexOutOfRange 0 0), run ping_fails logger0 cs (p0, w1)).
Proof.
  intros E Halive.
  assert (Hmax : 0 <= int_max) by (unfold int_max; lia).
  pose proof (inv_reachable ping_fails logger0 _ _ _ _ _ _ cs Hmax E) as Hinv.
  pose proof (length_run ping_fails logger0 cs (p0, w1) (inv_NewPool _ _ _ _ _ _ Hmax E))
    as Hlen.
  destruct (length_NewPool _ _ _ _ _ _ E) as (_ & Hlen0 & _). cbn [fst] in Hlen.
  rewrite Hlen0 in Hlen. cbn in Hlen. apply length_zero_iff_nil in Hlen.
  destruct (run ping_fails logger0 cs (p0, w1)) as [p w]. cbn [fst] in *.
  pose proof Hinv as (Hcur & _ & Hcl). cbn [fst] in *.
  assert (Hc : closed p = false).
  { destruct (closed p) eqn:Hc; [|reflexivity].
    destruct (Hcl Hc) as [_ Hd]. congruence. }
  cbn [pinger]. unfold bind at 1. rewrite pinger_iteration_unfold.
  destruct (Session_cases ping_fails logger p w Hcur)
    as [[Hc' E1] | [(Hc' & Hnil & E1) | [(Hc' & Hi & Hl & t & E1) | (Hc' & Hi & c & t & Hl & E1)]]].
  - congruence.
  - rewrite E1. reflexivity.
  - rewrite Hlen in Hi. simpl in Hi. lia.
  - rewrite Hlen in Hi. simpl in Hi. lia.
Qed.

(** ** Closing discipline *)

Lemma closed_by_app t1 t2 : closed_by (t1 ++ t2) = closed_by t1 ++ closed_by t2.
Proof. unfold closed_by. apply flat_map_app. Qed.

Lemma copied_by_app t1 t2 : copied_by (t1 ++ t2) = copied_by t1 ++ copied_by t2.
Proof. unfold copied_by. apply flat_map_app. Qed.

Lemma closed_by_closes_of l : closed_by (closes_of l) = held l.
Proof.
  induction l as [|[c|] l IH]; [reflexivity| |exact IH].
  change (closes_of (Some c :: l)) with (mgo.EvClose c :: closes_of l).
  change (held (Some c :: l)) with (c :: held l).
  cbn. f_equal. exact IH.
Qed.

Lemma copied_by_closes_of l : copied_by (closes_of l) = [].
Proof.
  induction l as [|[c|] l IH]; [reflexivity| |exact IH].
  change (closes_of (Some c :: l)) with (mgo.EvClose c :: closes_of l).
  cbn. exact IH.
Qed.

Lemma closed_by_access logger a : closed_by (access_events logger a) = [].
Proof. destruct logger, a; reflexivity. Qed.

Lemma copied_by_access logger a : copied_by (access_events logger a) = [].
Proof. destruct logger, a; reflexivity. Qed.

Lemma held_replicate n : held (replicate n None) = [].
Proof. induction n as [|n IH]; [reflexivity|exact IH]. Qed.

Lemma In_held_lookup l c : In c (held l) <-> exists i, l !! i = Some (Some c).
Proof.
  induction l as [|o l IH].
  - split; [intros []|intros [i Hi]; discriminate].
  - split.
    + intros Hin. destruct o as [c'|].
      * destruct Hin as [->|Hin]; [exists 0%nat; reflexivity|].
        apply IH in Hin. destruct Hin as [i Hi]. exists (S i). exact Hi.
      * apply IH in Hin. destruct Hin as [i Hi]. exists (S i). exact Hi.
    + intros [[|i] Hi]; cbn in Hi.
      * inversion Hi; subst o. left. reflexivity.
      * assert (Hin : In c (held l)) by (apply IH; exists i; exact Hi).
        destruct o; [right; exact Hin|exact Hin].
Qed.

Lemma held_insert_perm l : forall i c,
  l !! i = Some None ->
  Permutation (held (<[i := Some c]> l)) (c :: held l).
Proof.
  induction l as [|o l IH]; intros [|i] c Hl; try discriminate.
  - cbn in Hl. inversion Hl; subst o. reflexivity.
  - cbn in Hl. destruct o as [c'|]; simpl.
    + rewrite (IH i c Hl). apply perm_swap.
    + exact (IH i c Hl).
Qed.

Lemma disciplined_from_incl t : forall D D',
  (forall s, In s D -> In s D') ->
  disciplined_from D' t -> disciplined_from D t.
Proof.
  induction t as [|e t IH]; intros D D' Hincl Hd; [exact I|].
  destruct Hd as [He Ht]. split.
  - destruct (subject e) as [s|]; [|exact I]. intros Hin. apply He, Hincl, Hin.
  - apply (IH _ (closed_by [e] ++ D')); [|exact Ht].
    intros s Hin. apply in_app_or in Hin. apply in_or_app.
    destruct Hin as [Hin|Hin]; [left; exact Hin|right; apply Hincl, Hin].
Qed.

Lemma disciplined_from_app t : forall D l,
  disciplined_from D t ->
  disciplined_from (closed_by t ++ D) l ->
  disciplined_from D (t ++ l).
Proof.
  induction t as [|e t IH]; intros D l Ht Hl; [exact Hl|].
  destruct Ht as [He Ht]. split; [exact He|].
  apply IH; [exact Ht|].
  apply (disciplined_from_incl l _ (closed_by (e :: t) ++ D)); [|exact Hl].
  intros s Hin. change (e :: t) with ([e] ++ t). rewrite closed_by_app.
  apply in_app_or in Hin. destruct Hin as [Hin|Hin].
  - apply in_or_app. left. apply in_or_app. right. exact Hin.
  - apply in_app_or in Hin. destruct Hin as [Hin|Hin].
    + apply in_or_app. left. apply in_or_app. left. exact Hin.
    + apply in_or_app. right. exact Hin.
Qed.

Lemma disciplined_extend t l :
  disciplined t -> disciplined_from (closed_by t) l -> disciplined (t ++ l).
Proof.
  intros Ht Hl. apply disciplined_from_app; [exact Ht|].
  rewrite app_nil_r. exact Hl.
Qed.

Lemma disciplined_from_access D logger a l :
  disciplined_from D l -> disciplined_from D (access_events logger a ++ l).
Proof.
  intros Hl. destruct logger, a; try exact Hl; (split; [exact I|exact Hl]).
Qed.

Lemma disciplined_from_closes_of l : forall D,
  List.NoDup (held l) ->
  (forall c, In c (held l) -> ~ In c D) ->
  disciplined_from D (closes_of l).
Proof.
  induction l as [|[c|] l IH]; intros D Hnd Hout; [exact I| |exact (IH D Hnd Hout)].
  change (closes_of (Some c :: l)) with (mgo.EvClose c :: closes_of l).
  change (held (Some c :: l)) with (c :: held l) in Hnd, Hout.
  inversion Hnd as [|x xs Hnotin Hnd']; subst.
  split; [apply Hout; left; reflexivity|].
  apply IH; [exact Hnd'|].
  intros c' Hin [Heq|HinD].
  - subst c'. contradiction.
  - exact (Hout c' (or_intror Hin) HinD).
Qed.

(** Splitting a disciplined trace at any event. *)
Lemma disciplined_from_split t : forall D t1 e t2 s,
  disciplined_from D t ->
  t = t1 ++ e :: t2 ->
  subject e = Some s ->
  ~ In s D /\ ~ In s (closed_by t1).
Proof.
  induction t as [|e0 t IH]; intros D t1 e t2 s Hd Ht Hs.
  - destruct t1; discriminate.
  - destruct Hd as [He Hd]. destruct t1 as [|e1 t1]; cbn in Ht.
    + inversion Ht; subst e0 t. rewrite Hs in He. split; [exact He|intros []].
    + inversion Ht; subst e0 t.
      destruct (IH _ t1 e t2 s Hd eq_refl Hs) as [Hn1 Hn2].
      split.
      * intros Hin. apply Hn1. apply in_or_app. right. exact Hin.
      * change (e1 :: t1) with ([e1] ++ t1). rewrite closed_by_app.
        intros Hin. apply in_app_or in Hin. destruct Hin as [Hin|Hin].
        -- apply Hn1. apply in_or_app. left. exact Hin.
        -- exact (Hn2 Hin).
Qed.

(** ** The pool keeps its events tidy *)

Lemma allocated_held (st : St) c :
  allocated st -> In c (held (sessions (fst st))) -> (c < mgo.next (snd st))%nat.
Proof.
  intros [_ Hslots] Hin. apply In_held_lookup in Hin. destruct Hin as [i Hi].
  exact (Hslots i c Hi).
Qed.

Lemma tidy_nil_app t st : tidy t st -> tidy (t ++ []) st.
Proof. rewrite app_nil_r. exact (fun H => H). Qed.

(** A miss: the slot under the cursor gets a new copy of the base. *)
Lemma tidy_miss (t : list mgo.Event) (p : Pool) (w : mgo.World)
  (logger : Logger) (k : nat) (i' : Z) (failed : bool) :
  allocated (p, w) ->
  tidy t (p, w) ->
  closed p = false ->
  sessions p !! k = Some None ->
  let c := mgo.next w in
  let l := access_events logger (Creating (sessionIndex p))
             ++ [mgo.EvCopy (session p) c; mgo.EvPing c failed; mgo.EvClone c (S c)] in
  let st' := (set_sessionIndex i' (set_sessions (<[k := Some c]> (sessions p)) p),
              mgo.mkWorld (S (S c)) (mgo.trace w ++ l)) in
  tidy (t ++ l) st' /\ outside (S c) (t ++ l) st' /\ closed_by l = [].
Proof.
  intros Halloc (T1 & T2 & T3 & T4 & T5 & T6) Hc Hl c l st'.
  pose proof Halloc as [Hbase _]. cbn [fst snd] in *.
  assert (Hcl : closed_by l = []).
  { unfold l. rewrite closed_by_app, closed_by_access. reflexivity. }
  assert (Hcb : closed_by (t ++ l) = closed_by t).
  { rewrite closed_by_app, Hcl. apply app_nil_r. }
  assert (Hcp : copied_by (t ++ l) = copied_by t ++ [c]).
  { rewrite copied_by_app. unfold l. rewrite copied_by_app, copied_by_access.
    reflexivity. }
  assert (Hfresh : ~ In c (closed_by t)).
  { intros Hin. apply T2 in Hin. unfold c in Hin. lia. }
  assert (Hperm := held_insert_perm (sessions p) k c Hl).
  assert (Hnew : ~ In c (held (sessions p))).
  { intros Hin. apply (allocated_held (p, w)) in Hin; [|exact Halloc].
    cbn in Hin. unfold c in Hin. lia. }
  split; [|split; [|exact Hcl]].
  - unfold tidy, st'. cbn [fst snd sessions session closed set_sessionIndex
                           set_sessions mgo.next].
    rewrite Hcb. split; [|split; [|split; [|split; [|split]]]].
    + apply disciplined_extend; [exact T1|]. unfold l.
      apply disciplined_from_access. cbn.
      split; [exact (T3 Hc)|]. split; [exact Hfresh|]. split; [exact Hfresh|exact I].
    + intros s Hin. apply T2 in Hin. unfold c. lia.
    + exact T3.
    + intros c' Hin. apply (Permutation_in _ Hperm) in Hin.
      destruct Hin as [<-|Hin].
      * split; [exact Hfresh|]. split; [unfold c; lia|].
        apply in_or_app. right. unfold l. apply in_or_app. right. left. reflexivity.
      * destruct (T4 c' Hin) as (H1 & H2 & H3).
        split; [exact H1|]. split; [exact H2|]. apply in_or_app. left. exact H3.
    + apply (Permutation_NoDup (Permutation_sym Hperm)).
      constructor; assumption.
    + rewrite Hcp. intros c' Hin. apply in_app_or in Hin. destruct Hin as [Hin|Hin].
      * destruct (T6 c' Hin) as [H|[H|H]]; [left; exact H| |right; right; exact H].
        right. left. apply (Permutation_in _ (Permutation_sym Hperm)). right. exact H.
      * destruct Hin as [<-|[]]. right. left.
        apply (Permutation_in _ (Permutation_sym Hperm)). left. reflexivity.
  - unfold outside, st'. cbn [fst snd sessions session set_sessionIndex set_sessions
                              mgo.next].
    rewrite Hcb. split; [lia|]. split; [unfold c; lia|]. split.
    + intros Hin. apply (Permutation_in _ Hperm) in Hin. destruct Hin as [Heq|Hin].
      * lia.
      * apply (allocated_held (p, w)) in Hin; [|exact Halloc]. cbn in Hin.
        unfold c in Hin. lia.
    + intros Hin. apply T2 in Hin. unfold c in Hin. lia.
Qed.

(** A hit: the session under the cursor is cloned. *)
Lemma tidy_hit (t : list mgo.Event) (p : Pool) (w : mgo.World)
  (logger : Logger) (k : nat) (i' : Z) (c : mgo.Session) :
  allocated (p, w) ->
  tidy t (p, w) ->
  sessions p !! k = Some (Some c) ->
  let h := mgo.next w in
  let l := access_events logger (Reusing (sessionIndex p)) ++ [mgo.EvClone c h] in
  let st' := (set_sessionIndex i' p, mgo.mkWorld (S h) (mgo.trace w ++ l)) in
  tidy (t ++ l) st' /\ outside h (t ++ l) st' /\ closed_by l = [].
Proof.
  intros Halloc (T1 & T2 & T3 & T4 & T5 & T6) Hl h l st'.
  pose proof Halloc as [Hbase _]. cbn [fst snd] in *.
  assert (Hheld : In c (held (sessions p))).
  { apply In_held_lookup. exists k. exact Hl. }
  assert (Hcl : closed_by l = []).
  { unfold l. rewrite closed_by_app, closed_by_access. reflexivity. }
  assert (Hcb : closed_by (t ++ l) = closed_by t).
  { rewrite closed_by_app, Hcl. apply app_nil_r. }
  assert (Hcp : copied_by (t ++ l) = copied_by t).
  { rewrite copied_by_app. unfold l. rewrite copied_by_app, copied_by_access.
    apply app_nil_r. }
  split; [|split; [|exact Hcl]].
  - unfold tidy, st'. cbn [fst snd sessions session closed set_sessionIndex mgo.next].
    rewrite Hcb, Hcp. split; [|split; [|split; [|split; [|split]]]].
    + apply disciplined_extend; [exact T1|]. unfold l.
      apply disciplined_from_access. cbn.
      split; [exact (proj1 (T4 c Hheld))|exact I].
    + intros s Hin. apply T2 in Hin. unfold h. lia.
    + exact T3.
    + intros c' Hin. destruct (T4 c' Hin) as (H1 & H2 & H3).
      split; [exact H1|]. split; [exact H2|]. apply in_or_app. left. exact H3.
    + exact T5.
    + exact T6.
  - unfold outside, st'. cbn [fst snd sessions session set_sessionIndex mgo.next].
    rewrite Hcb. split; [lia|]. split; [unfold h; lia|]. split.
    + intros Hin. apply (allocated_held (p, w)) in Hin; [|exact Halloc].
      cbn in Hin. unfold h in Hin. lia.
    + intros Hin. apply T2 in Hin. unfold h in Hin. lia.
Qed.

(** [closeSessions]: every held session is closed, once. *)
Lemma tidy_closeSessions (t : list mgo.Event) (p : Pool) (w : mgo.World) :
  allocated (p, w) ->
  tidy t (p, w) ->
  tidy (t ++ closes_of (sessions p))
    (set_sessions (replicate (length (sessions p)) None) p,
     mgo.mkWorld (mgo.next w) (mgo.trace w ++ closes_of (sessions p))).
Proof.
  intros Halloc (T1 & T2 & T3 & T4 & T5 & T6). cbn [fst snd] in *.
  unfold tidy. cbn [fst snd sessions session closed set_sessions mgo.next].
  rewrite closed_by_app, closed_by_closes_of, copied_by_app, copied_by_closes_of,
    app_nil_r, held_replicate.
  split; [|split; [|split; [|split; [|split]]]].
  - apply disciplined_extend; [exact T1|].
    apply disciplined_from_closes_of; [exact T5|].
    intros c Hin. exact (proj1 (T4 c Hin)).
  - intros s Hin. apply in_app_or in Hin. destruct Hin as [Hin|Hin]; [exact (T2 s Hin)|].
    exact (allocated_held (p, w) s Halloc Hin).
  - intros Hc Hin. apply in_app_or in Hin. destruct Hin as [Hin|Hin]; [exact (T3 Hc Hin)|].
    destruct (T4 _ Hin) as (_ & Hne & _). apply Hne. reflexivity.
  - intros c [].
  - constructor.
  - intros c Hin. destruct (T6 c Hin) as [H|[H|H]]; [left; exact H| |].
    + right. right. apply in_or_app. right. exact H.
    + right. right. apply in_or_app. left. exact H.
Qed.

Lemma outside_preserved (h0 : mgo.Session) (t l : list mgo.Event)
  (p : Pool) (w : mgo.World) (p' : Pool) (w' : mgo.World) :
  outside h0 t (p, w) ->
  session p' = session p ->
  (mgo.next w <= mgo.next w')%nat ->
  (forall c, In c (held (sessions p')) ->
             In c (held (sessions p)) \/ (mgo.next w <= c)%nat) ->
  (forall s, In s (closed_by l) ->
             In s (held (sessions p)) \/ s = session p \/ (mgo.next w <= s)%nat) ->
  outside h0 (t ++ l) (p', w').
Proof.
  intros (H1 & H2 & H3 & H4) Hbase Hnext Hheld Hcl. cbn [fst snd] in *.
  unfold outside. cbn [fst snd]. rewrite Hbase.
  split; [lia|]. split; [exact H2|]. split.
  - intros Hin. destruct (Hheld _ Hin) as [H|H]; [exact (H3 H)|lia].
  - rewrite closed_by_app. intros Hin. apply in_app_or in Hin.
    destruct Hin as [Hin|Hin]; [exact (H4 Hin)|].
    destruct (Hcl _ Hin) as [H|[H|H]]; [exact (H3 H)|exact (H2 H)|lia].
Qed.

(** A call on a session from outside that closes nothing. *)
Lemma tidy_use_outside (t : list mgo.Event) (p : Pool) (w : mgo.World)
  (h : mgo.Session) (e : mgo.Event) :
  tidy t (p, w) ->
  outside h t (p, w) ->
  subject e = Some h ->
  closed_by [e] = [] ->
  copied_by [e] = [] ->
  tidy (t ++ [e]) (p, mgo.emit e w) /\ outside h (t ++ [e]) (p, mgo.emit e w).
Proof.
  intros (T1 & T2 & T3 & T4 & T5 & T6) (O1 & O2 & O3 & O4) Hs Hcl Hcp.
  cbn [fst snd] in *.
  assert (Hcb : closed_by (t ++ [e]) = closed_by t).
  { rewrite closed_by_app, Hcl. apply app_nil_r. }
  split.
  - unfold tidy. cbn [fst snd mgo.emit mgo.next].
    rewrite Hcb, copied_by_app, Hcp, app_nil_r.
    split; [|split; [|split; [|split; [|split]]]]; try assumption.
    + apply disciplined_extend; [exact T1|]. cbn. rewrite Hs. split; [exact O4|exact I].
    + intros c Hin. destruct (T4 c Hin) as (H1 & H2 & H3).
      split; [exact H1|]. split; [exact H2|]. apply in_or_app. left. exact H3.
  - unfold outside. cbn [fst snd mgo.emit mgo.next]. rewrite Hcb.
    split; [exact O1|]. split; [exact O2|]. split; assumption.
Qed.

(** Closing a session from outside. *)
Lemma tidy_close_outside (t : list mgo.Event) (p : Pool) (w : mgo.World)
  (h : mgo.Session) :
  tidy t (p, w) ->
  outside h t (p, w) ->
  tidy (t ++ [mgo.EvClose h]) (p, mgo.emit (mgo.EvClose h) w).
Proof.
  intros (T1 & T2 & T3 & T4 & T5 & T6) (O1 & O2 & O3 & O4). cbn [fst snd] in *.
  unfold tidy. cbn [fst snd mgo.emit mgo.next].
  rewrite closed_by_app, copied_by_app. cbn [closed_by copied_by flat_map app].
  rewrite app_nil_r.
  split; [|split; [|split; [|split; [|split]]]].
  - apply disciplined_extend; [exact T1|]. cbn. split; [exact O4|exact I].
  - intros s Hin. apply in_app_or in Hin.
    destruct Hin as [Hin|[<-|[]]]; [exact (T2 s Hin)|exact O1].
  - intros Hc Hin. apply in_app_or in Hin.
    destruct Hin as [Hin|[Heq|[]]]; [exact (T3 Hc Hin)|]. congruence.
  - intros c Hin. destruct (T4 c Hin) as (H1 & H2 & H3).
    split; [|split; [exact H2|apply in_or_app; left; exact H3]].
    intros Hin'. apply in_app_or in Hin'.
    destruct Hin' as [Hin'|[Heq|[]]]; [exact (H1 Hin')|]. subst c. exact (O3 Hin).
  - exact T5.
  - intros c Hin. destruct (T6 c Hin) as [H|[H|H]];
      [left; exact H|right; left; exact H|].
    right. right. apply in_or_app. left. exact H.
Qed.

Section Tidy.
Variable ping_fails : list mgo.Event -> mgo.Session -> bool.
Variable logger0 : Logger.

Lemma Session_tidy logger st t :
  inv st -> tidy t st ->
  exists l,
    mgo.trace (snd (snd (Session ping_fails logger st))) = mgo.trace (snd st) ++ l /\
    tidy (t ++ l) (snd (Session ping_fails logger st)) /\
    closed_by l = [] /\
    session (fst (snd (Session ping_fails logger st))) = session (fst st) /\
    (mgo.next (snd st) <= mgo.next (snd (snd (Session ping_fails logger st))))%nat /\
    (forall c, In c (held (sessions (fst (snd (Session ping_fails logger st))))) ->
               In c (held (sessions (fst st))) \/ (mgo.next (snd st) <= c)%nat) /\
    (forall h, fst (Session ping_fails logger st) = Ok h ->
               outside h (t ++ l) (snd (Session ping_fails logger st)) /\
               (mgo.next (snd st) <= h)%nat).
Proof.
  destruct st as [p w]. intros (Hcur & Halloc & Hclok) Ht. cbn [fst snd] in *.
  destruct (Session_any ping_fails logger p w)
    as [[Hc E] | [(Hc & Hi & E) | [(Hc & Hi & Hl & r & E) | (Hc & Hi & c & Hl & E)]]];
    rewrite E; cbn [fst snd mgo.trace mgo.next session sessions set_sessionIndex
                    set_sessions].
  - exists []. rewrite !app_nil_r. split; [reflexivity|]. split; [exact Ht|].
    split; [reflexivity|]. split; [reflexivity|]. split; [lia|].
    split; [intros c' H; left; exact H|discriminate].
  - exists []. rewrite !app_nil_r. split; [reflexivity|]. split; [exact Ht|].
    split; [reflexivity|]. split; [reflexivity|]. split; [lia|].
    split; [intros c' H; left; exact H|discriminate].
  - destruct (tidy_miss t p w logger (Z.to_nat (sessionIndex p)) (next_index p) r
                Halloc Ht Hc Hl) as (Ht' & Hout & Hcl).
    cbv zeta in Ht', Hout. eexists. split; [reflexivity|]. split; [exact Ht'|].
    split; [exact Hcl|]. split; [reflexivity|]. split; [lia|]. split.
    + intros c' Hin.
      apply (Permutation_in _ (held_insert_perm _ _ _ Hl)) in Hin.
      destruct Hin as [<-|Hin]; [right; lia|left; exact Hin].
    + intros h Hh. inversion Hh; subst h. split; [exact Hout|lia].
  - destruct (tidy_hit t p w logger (Z.to_nat (sessionIndex p)) (next_index p) c
                Halloc Ht Hl) as (Ht' & Hout & Hcl).
    cbv zeta in Ht', Hout. eexists. split; [reflexivity|]. split; [exact Ht'|].
    split; [exact Hcl|]. split; [reflexivity|]. split; [lia|]. split.
    + intros c' Hin. left. exact Hin.
    + intros h Hh. inversion Hh; subst h. split; [exact Hout|lia].
Qed.

Lemma Session_keeps_tidy logger st t :
  inv st -> tidy t st -> keeps_tidy t st (snd (Session ping_fails logger st)).
Proof.
  intros Hinv Ht.
  destruct (Session_tidy logger st t Hinv Ht)
    as (l & Etr & Ht' & Hcl & Hbase & Hnext & Hheld & _).
  exists l. split; [exact Etr|]. split; [exact Ht'|].
  intros h0 H0. destruct st as [p w].
  destruct (snd (Session ping_fails logger (p, w))) as [p' w'].
  apply (outside_preserved h0 t l p w); try assumption.
  rewrite Hcl. intros s [].
Qed.

Lemma Reset_tidy st t : inv st -> tidy t st -> keeps_tidy t st (snd (Reset st)).
Proof.
  destruct st as [p w]. intros (_ & Halloc & _) Ht. rewrite Reset_spec.
  exists (closes_of (sessions p)). cbn [fst snd mgo.trace].
  split; [reflexivity|]. split; [exact (tidy_closeSessions t p w Halloc Ht)|].
  intros h0 H0. apply (outside_preserved h0 t _ p w); [exact H0|reflexivity|cbn; lia| |].
  - cbn. rewrite held_replicate. intros c [].
  - rewrite closed_by_closes_of. intros s Hin. left. exact Hin.
Qed.

Lemma Close_tidy st t : inv st -> tidy t st -> keeps_tidy t st (snd (Close st)).
Proof.
  destruct st as [p w]. intros (_ & Halloc & _) Ht.
  destruct (closed p) eqn:Hc.
  - rewrite Close_closed by exact Hc. exists []. cbn [fst snd].
    rewrite !app_nil_r. split; [reflexivity|]. split.
    + exact Ht.
    + intros h0 H. exact H.
  - rewrite Close_open by exact Hc.
    exists (closes_of (sessions p) ++ [mgo.EvClose (session p)]).
    cbn [fst snd mgo.trace]. split; [reflexivity|]. split.
    + pose proof (tidy_closeSessions t p w Halloc Ht)
        as (T1 & T2 & T3 & T4 & T5 & T6).
      pose proof Halloc as [Hbase _]. cbn [fst snd] in *.
      unfold tidy. cbn [fst snd sessions session closed mgo.next].
      rewrite app_assoc, closed_by_app, copied_by_app.
      cbn [closed_by copied_by flat_map app]. rewrite app_nil_r, held_replicate.
      split; [|split; [|split; [|split; [|split]]]].
      * apply disciplined_extend; [exact T1|]. cbn. split; [exact (T3 Hc)|exact I].
      * intros s Hin. apply in_app_or in Hin.
        destruct Hin as [Hin|[<-|[]]]; [exact (T2 s Hin)|exact Hbase].
      * discriminate.
      * intros c [].
      * constructor.
      * intros c Hin. right. right. apply in_or_app.
        destruct (T6 c Hin) as [[-> _]|[H|H]];
          [right; left; reflexivity| |left; exact H].
        cbn in H. rewrite held_replicate in H. destruct H.
    + intros h0 H0. apply (outside_preserved h0 t _ p w); [exact H0|reflexivity|cbn; lia| |].
      * cbn. rewrite held_replicate. intros c [].
      * rewrite closed_by_app, closed_by_closes_of. intros s Hin.
        apply in_app_or in Hin. destruct Hin as [Hin|[<-|[]]];
          [left; exact Hin|right; left; reflexivity].
Qed.

Lemma pinger_iteration_tidy logger st t :
  inv st -> tidy t st ->
  keeps_tidy t st (snd (pinger_iteration ping_fails logger st)).
Proof.
  intros Hinv Ht.
  pose proof (inv_Session ping_fails logger st Hinv) as Hinv1.
  destruct (Session_tidy logger st t Hinv Ht)
    as (l1 & Etr & Ht1 & Hcl1 & Hbase & Hnext & Hheld & Hh).
  rewrite pinger_iteration_unfold.
  destruct st as [p w].
  destruct (Session ping_fails logger (p, w)) as [[h|e] [p1 w2]].
  2:{ exists l1. cbn [fst snd] in *. split; [exact Etr|]. split; [exact Ht1|].
      intros h0 H0. apply (outside_preserved h0 t l1 p w); try assumption.
      rewrite Hcl1. intros s []. }
  cbn [fst snd] in *. destruct (Hh h eq_refl) as [Hout Hge].
  pose proof Hinv1 as (_ & Halloc1 & _).
  set (r := ping_fails (mgo.trace w2) h).
  destruct (tidy_use_outside (t ++ l1) p1 w2 h (mgo.EvPing h r) Ht1 Hout
              eq_refl eq_refl eq_refl) as [Ht2 Hout2].
  cbv zeta. fold r. destruct r.
  - pose proof (tidy_closeSessions _ p1 (mgo.emit (mgo.EvPing h true) w2) Halloc1 Ht2)
      as Ht3.
    assert (Hout3 : outside h (((t ++ l1) ++ [mgo.EvPing h true]) ++ closes_of (sessions p1))
              (set_sessions (replicate (length (sessions p1)) None) p1,
               mgo.mkWorld (mgo.next (mgo.emit (mgo.EvPing h true) w2))
                 (mgo.trace (mgo.emit (mgo.EvPing h true) w2) ++ closes_of (sessions p1)))).
    { apply (outside_preserved h _ _ p1 (mgo.emit (mgo.EvPing h true) w2));
        [exact Hout2|reflexivity|cbn; lia| |].
      - cbn. rewrite held_replicate. intros c [].
      - rewrite closed_by_closes_of. intros s Hin. left. exact Hin. }
    pose proof (tidy_close_outside _ _ _ h Ht3 Hout3) as Ht4.
    exists (l1 ++ [mgo.EvPing h true] ++ closes_of (sessions p1) ++ [mgo.EvClose h]).
    cbn [fst snd mgo.trace]. split; [|split].
    + rewrite Etr, <- !app_assoc. reflexivity.
    + unfold mgo.emit in Ht4. cbn [mgo.next mgo.trace] in Ht4.
      rewrite <- !app_assoc in Ht4. rewrite <- !app_assoc. exact Ht4.
    + intros h0 H0. apply (outside_preserved h0 t _ p w); [exact H0|exact Hbase|exact Hnext| |].
      * cbn. rewrite held_replicate. intros c [].
      * rewrite !closed_by_app, Hcl1, closed_by_closes_of. cbn.
        intros s Hin. apply in_app_or in Hin. destruct Hin as [Hin|[<-|[]]].
        -- destruct (Hheld s Hin) as [H|H]; [left; exact H|right; right; exact H].
        -- right. right. exact Hge.
  - pose proof (tidy_close_outside _ _ _ h Ht2 Hout2) as Ht4.
    exists (l1 ++ [mgo.EvPing h false] ++ [mgo.EvClose h]).
    cbn [fst snd mgo.trace]. split; [|split].
    + rewrite Etr, <- !app_assoc. reflexivity.
    + unfold mgo.emit in Ht4. cbn [mgo.next mgo.trace] in Ht4.
      rewrite <- !app_assoc in Ht4. rewrite <- !app_assoc. exact Ht4.
    + intros h0 H0. apply (outside_preserved h0 t _ p w); [exact H0|exact Hbase|exact Hnext| |].
      * exact Hheld.
      * rewrite !closed_by_app, Hcl1. cbn.
        intros s [<-|[]]. right. right. exact Hge.
Qed.

Lemma step_tidy st c t :
  inv st -> tidy t st -> keeps_tidy t st (step ping_fails logger0 st c).
Proof.
  intros Hinv Ht. destruct c as [logger| | |]; cbn [step].
  - apply Session_keeps_tidy; assumption.
  - apply Reset_tidy; assumption.
  - apply Close_tidy; assumption.
  - destruct (tomb (fst st)).
    + apply pinger_iteration_tidy; assumption.
    + exists []. rewrite !app_nil_r. split; [reflexivity|]. split; [exact Ht|].
      intros h0 H; exact H.
    + exists []. rewrite !app_nil_r. split; [reflexivity|]. split; [exact Ht|].
      intros h0 H; exact H.
Qed.

Lemma run_tidy cs : forall st t,
  inv st -> tidy t st -> keeps_tidy t st (run ping_fails logger0 cs st).
Proof.
  induction cs as [|c cs IH]; intros st t Hinv Ht.
  - exists []. rewrite !app_nil_r. split; [reflexivity|]. split; [exact Ht|].
    intros h0 H; exact H.
  - cbn [run fold_left].
    destruct (step_tidy st c t Hinv Ht) as (l1 & E1 & Ht1 & Ho1).
    destruct (IH _ _ (inv_step ping_fails logger0 st c Hinv) Ht1) as (l2 & E2 & Ht2 & Ho2).
    exists (l1 ++ l2). split; [|split].
    + unfold run in E2. rewrite E2, E1, app_assoc. reflexivity.
    + rewrite app_assoc. exact Ht2.
    + intros h0 H0. rewrite app_assoc. apply Ho2, Ho1, H0.
Qed.

End Tidy.

Lemma tidy_NewPool logger s n w0 p0 w1 :
  NewPool logger s n w0 = (Ok p0, w1) ->
  mgo.trace w1 = mgo.trace w0 ++ [mgo.EvCopy s (session p0)] /\
  tidy [mgo.EvCopy s (session p0)] (p0, w1).
Proof.
  intros E. destruct (NewPool_returns _ _ _ _ _ _ E) as (Hn & Hfit & E0).
  rewrite E0 in E. inversion E; subst p0 w1; clear E.
  cbn [session mgo.trace]. split; [reflexivity|].
  unfold tidy. cbn [fst snd session sessions closed mgo.next closed_by copied_by
                    flat_map app].
  rewrite held_replicate.
  split; [split; [intros []|exact I]|].
  split; [intros s' []|]. split; [intros _ []|]. split; [intros c []|].
  split; [constructor|]. intros c [<-|[]]. left. split; reflexivity.
Qed.

(** The events since the pool was built are tidy in every reachable state. *)
Lemma tidy_reachable
  (ping_fails : list mgo.Event -> mgo.Session -> bool)
  (logger0 : Logger) (s : mgo.Session) (n : Z) (w0 : mgo.World)
  (p0 : Pool) (w1 : mgo.World) (cs : list Call) :
  n <= int_max ->
  NewPool logger0 s n w0 = (Ok p0, w1) ->
  mgo.trace (snd (run ping_fails logger0 cs (p0, w1)))
  = mgo.trace w0 ++ since w0 (snd (run ping_fails logger0 cs (p0, w1))) /\
  tidy (since w0 (snd (run ping_fails logger0 cs (p0, w1))))
       (run ping_fails logger0 cs (p0, w1)).
Proof.
  intros Hmax E.
  destruct (tidy_NewPool _ _ _ _ _ _ E) as [Etr Ht0].
  destruct (run_tidy ping_fails logger0 cs (p0, w1) _ (inv_NewPool _ _ _ _ _ _ Hmax E) Ht0)
    as (l & El & Ht & _).
  cbn [snd] in El. rewrite Etr, <- app_assoc in El.
  rewrite (since_extends _ _ _ El). split; [exact El|exact Ht].
Qed.

(** ** What the tidy trace gives *)

Lemma session_Session
  (ping_fails : list mgo.Event -> mgo.Session -> bool) (logger : Logger) (st : St) :
  session (fst (snd (Session ping_fails logger st))) = session (fst st).
Proof.
  destruct st as [p w].
  destruct (Session_any ping_fails logger p w)
    as [[Hc E] | [(Hc & Hi & E) | [(Hc & Hi & Hl & r & E) | (Hc & Hi & c & Hl & E)]]];
    rewrite E; reflexivity.
Qed.

Lemma session_step
  (ping_fails : list mgo.Event -> mgo.Session -> bool) (logger0 : Logger)
  (st : St) (c : Call) :
  session (fst (step ping_fails logger0 st c)) = session (fst st).
Proof.
  destruct c as [logger| | |]; cbn [step].
  - apply session_Session.
  - destruct st as [p w]. rewrite Reset_spec. reflexivity.
  - destruct st as [p w]. destruct (closed p) eqn:Hc.
    + rewrite Close_closed by exact Hc. reflexivity.
    + rewrite Close_open by exact Hc. reflexivity.
  - destruct (tomb (fst st)); try reflexivity.
    rewrite pinger_iteration_unfold.
    pose proof (session_Session ping_fails (or_nullLogger logger0) st) as HS.
    destruct (Session ping_fails (or_nullLogger logger0) st) as [[h|e] [p1 w1]];
      [|exact HS].
    cbv zeta. cbn [fst snd] in HS.
    destruct (ping_fails (mgo.trace w1) h); exact HS.
Qed.

Lemma session_run
  (ping_fails : list mgo.Event -> mgo.Session -> bool) (logger0 : Logger)
  (cs : list Call) : forall st : St,
  session (fst (run ping_fails logger0 cs st)) = session (fst st).
Proof.
  induction cs as [|c cs IH]; intros st; [reflexivity|].
  cbn [run fold_left]. unfold run in IH. rewrite IH. apply session_step.
Qed.

Lemma In_closed_by t s : In s (closed_by t) <-> In (mgo.EvClose s) t.
Proof.
  induction t as [|e t IH]; [reflexivity|].
  change (e :: t) with ([e] ++ t). rewrite closed_by_app. split.
  - intros Hin. apply in_app_or in Hin. apply in_or_app.
    destruct Hin as [Hin|Hin]; [left|right; apply IH; exact Hin].
    destruct e; cbn in Hin; try contradiction.
    destruct Hin as [->|[]]. left. reflexivity.
  - intros Hin. apply in_app_or in Hin. apply in_or_app.
    destruct Hin as [[Heq|[]]|Hin]; [subst e; left; left; reflexivity|].
    right. apply IH. exact Hin.
Qed.

Lemma In_copied_by t c : In c (copied_by t) <-> exists src, In (mgo.EvCopy src c) t.
Proof.
  induction t as [|e t IH].
  - split; [intros []|intros [src []]].
  - change (e :: t) with ([e] ++ t). rewrite copied_by_app. split.
    + intros Hin. apply in_app_or in Hin. destruct Hin as [Hin|Hin].
      * destruct e; cbn in Hin; try contradiction.
        destruct Hin as [->|[]]. eexists. left. reflexivity.
      * apply IH in Hin. destruct Hin as [src Hin]. exists src. right. exact Hin.
    + intros [src [Heq|Hin]]; apply in_or_app.
      * subst e. left. left. reflexivity.
      * right. apply IH. exists src. exact Hin.
Qed.

Lemma disciplined_from_NoDup t : forall D,
  disciplined_from D t ->
  List.NoDup (closed_by t) /\ forall s, In s (closed_by t) -> ~ In s D.
Proof.
  induction t as [|e t IH]; intros D Hd.
  - split; [constructor|intros s []].
  - destruct Hd as [He Hd]. destruct (IH _ Hd) as [Hnd Hout].
    change (e :: t) with ([e] ++ t). rewrite closed_by_app.
    destruct e as [a b|a b|a b|a|a b|a b]; cbn [closed_by flat_map app] in *;
      try (split; [exact Hnd|exact Hout]).
    split.
    + constructor; [|exact Hnd]. intros Hin. apply (Hout a Hin). left. reflexivity.
    + intros s' [<-|Hin]; [exact He|].
      intros HinD. apply (Hout s' Hin). right. exact HinD.
Qed.

(** X11.  In every reachable state the base session is the copy
    [NewPool] made, and the sessions held in the slots are pairwise
    different, none of them is the base session, and each of them was
    obtained by [Copy] on the base session since the pool was built. *)
Theorem X11_slots_hold_distinct_copies_of_base
  (ping_fails : list mgo.Event -> mgo.Session -> bool)
  (logger0 : Logger) (s : mgo.Session) (maxSessions : Z) (w0 : mgo.World)
  (p0 : Pool) (w1 : mgo.World) (cs : list Call) :
  is_int maxSessions ->
  NewPool logger0 s maxSessions w0 = (Ok p0, w1) ->
  let st := run ping_fails logger0 cs (p0, w1) in
  session (fst st) = mgo.next w0 /\
  List.NoDup (held (sessions (fst st))) /\
  forall i c,
    sessions (fst st) !! i = Some (Some c) ->
    c <> session (fst st) /\
    In (mgo.EvCopy (session (fst st)) c) (since w0 (snd st)).
Proof.
  intros [_ Hmax] E st.
  destruct (tidy_reachable ping_fails logger0 s maxSessions w0 p0 w1 cs Hmax E)
    as [_ (_ & _ & _ & T4 & T5 & _)].
  fold st in T4, T5.
  split; [|split; [exact T5|]].
  - unfold st. rewrite session_run. cbn [fst].
    destruct (length_NewPool _ _ _ _ _ _ E) as (_ & _ & _ & _ & _ & Hb). exact Hb.
  - intros i c Hl.
    destruct (T4 c (proj2 (In_held_lookup _ _) (ex_intro _ i Hl))) as (_ & H2 & H3).
    split; assumption.
Qed.

(** X12.  The pool never calls a method on a session it has closed: in
    the events since the pool was built, no [Copy], [Clone], [Ping] or
    [Close] comes after a [Close] of the same session.  In particular no
    session is closed twice. *)
Theorem X12_no_use_after_close
  (ping_fails : list mgo.Event -> mgo.Session -> bool)
  (logger0 : Logger) (s : mgo.Session) (maxSessions : Z) (w0 : mgo.World)
  (p0 : Pool) (w1 : mgo.World) (cs : list Call)
  (t1 t2 : list mgo.Event) (e : mgo.Event) (x : mgo.Session) :
  is_int maxSessions ->
  NewPool logger0 s maxSessions w0 = (Ok p0, w1) ->
  since w0 (snd (run ping_fails logger0 cs (p0, w1))) = t1 ++ e :: t2 ->
  subject e = Some x ->
  ~ In (mgo.EvClose x) t1.
Proof.
  intros [_ Hmax] E Hsplit Hs Hin.
  destruct (tidy_reachable ping_fails logger0 s maxSessions w0 p0 w1 cs Hmax E)
    as [_ (T1 & _)].
  destruct (disciplined_from_split _ _ _ _ _ _ T1 Hsplit Hs) as [_ Hn].
  apply Hn. apply In_closed_by. exact Hin.
Qed.

(** X13.  Once the pool is closed nothing is left open: in every
    reachable state with the closed flag set, every session obtained by
    [Copy] since the pool was built (the base session and every session
    that was ever in a slot) has been closed, exactly once. *)
Theorem X13_closed_pool_leaks_nothing
  (ping_fails : list mgo.Event -> mgo.Session -> bool)
  (logger0 : Logger) (s : mgo.Session) (maxSessions : Z) (w0 : mgo.World)
  (p0 : Pool) (w1 : mgo.World) (cs : list Call) (src c : mgo.Session) :
  is_int maxSessions ->
  NewPool logger0 s maxSessions w0 = (Ok p0, w1) ->
  closed (fst (run ping_fails logger0 cs (p0, w1))) = true ->
  In (mgo.EvCopy src c) (since w0 (snd (run ping_fails logger0 cs (p0, w1)))) ->
  count_occ Nat.eq_dec
    (closed_by (since w0 (snd (run ping_fails logger0 cs (p0, w1))))) c = 1%nat.
Proof.
  intros [_ Hmax] E Hc Hin.
  destruct (tidy_reachable ping_fails logger0 s maxSessions w0 p0 w1 cs Hmax E)
    as [_ (T1 & _ & _ & _ & _ & T6)].
  pose proof (inv_reachable ping_fails logger0 _ _ _ _ _ _ cs Hmax E) as (_ & _ & Hcl).
  destruct (Hcl Hc) as [Hnil _].
  destruct (disciplined_from_NoDup _ _ T1) as [Hnd _].
  apply NoDup_count_occ'; [exact Hnd|].
  destruct (T6 c (proj2 (In_copied_by _ _) (ex_intro _ src Hin))) as [[_ H]|[H|H]].
  - congruence.
  - rewrite (all_nil_eq _ Hnil), held_replicate in H. destruct H.
  - exact H.
Qed.

(** X14.  The pool never closes a session it has handed out: if a
    caller's [Session] call returns [h] in a reachable state, then
    whatever is called afterwards ([Session], [Reset], [Close], pinger
    ticks), no [Close] of [h] appears among the pool's events, and [h] is
    never put in a slot. *)
Theorem X14_handed_out_session_is_never_closed
  (ping_fails : list mgo.Event -> mgo.Session -> bool)
  (logger0 : Logger) (s : mgo.Session) (maxSessions : Z) (w0 : mgo.World)
  (p0 : Pool) (w1 : mgo.World) (cs : list Call)
  (logger : Logger) (h : mgo.Session) (cs' : list Call) :
  is_int maxSessions ->
  NewPool logger0 s maxSessions w0 = (Ok p0, w1) ->
  fst (Session ping_fails logger (run ping_fails logger0 cs (p0, w1))) = Ok h ->
  let st' := run ping_fails logger0 (cs ++ CallSession logger :: cs') (p0, w1) in
  ~ In (mgo.EvClose h) (since w0 (snd st')) /\
  (forall i, sessions (fst st') !! i <> Some (Some h)) /\
  h <> session (fst st').
Proof.
  intros [_ Hmax] E Hh st'.
  pose proof (inv_NewPool _ _ _ _ _ _ Hmax E) as Hinv0.
  destruct (tidy_NewPool _ _ _ _ _ _ E) as [Etr Ht0].
  destruct (run_tidy ping_fails logger0 cs (p0, w1) _ Hinv0 Ht0) as (l1 & E1 & Ht1 & _).
  pose proof (inv_run ping_fails logger0 cs _ Hinv0) as Hinv1.
  destruct (Session_tidy ping_fails logger _ _ Hinv1 Ht1)
    as (l2 & E2 & Ht2 & _ & _ & _ & _ & Hout).
  destruct (Hout h Hh) as [Hout2 _].
  pose proof (inv_Session ping_fails logger _ Hinv1) as Hinv2.
  destruct (run_tidy ping_fails logger0 cs' _ _ Hinv2 Ht2) as (l3 & E3 & Ht3 & Ho3).
  specialize (Ho3 h Hout2).
  assert (Est : st' = run ping_fails logger0 cs'
                        (snd (Session ping_fails logger (run ping_fails logger0 cs (p0, w1))))).
  { unfold st'. rewrite run_app. reflexivity. }
  rewrite <- Est in E3, Ho3.
  assert (Hsince : since w0 (snd st') = (([mgo.EvCopy s (session p0)] ++ l1) ++ l2) ++ l3).
  { apply since_extends. rewrite E3, E2, E1. cbn [snd]. rewrite Etr, <- !app_assoc.
    reflexivity. }
  rewrite Hsince. destruct Ho3 as (_ & O2 & O3 & O4).
  split; [|split].
  - intros Hin. apply O4. apply In_closed_by. exact Hin.
  - intros i Hi. apply O3. apply In_held_lookup. exists i. exact Hi.
  - exact O2.
Qed.

(** ** main *)

(** While the tomb is alive, the pinger's iterations are the clock ticks
    of [run]. *)
Lemma pinger_ticks
  (ping_fails : list mgo.Event -> mgo.Session -> bool) (logger0 : Logger)
  (n : nat) : forall st : St,
  inv st ->
  tomb (fst st) = Alive ->
  sessions (fst st) <> [] ->
  pinger ping_fails (replicate n ClockCase) (or_nullLogger logger0) st
  = (Ok Waiting, run ping_fails logger0 (replicate n ClockTick) st).
Proof.
  induction n as [|n IH]; intros st Hinv Halive Hne; [reflexivity|].
  destruct (pinger_iteration_completes ping_fails (or_nullLogger logger0) st
              Hinv Halive Hne) as (st1 & E1 & Hinv1 & Halive1 & Hlen1).
  cbn [replicate pinger run fold_left step]. unfold bind at 1.
  rewrite Halive, E1. cbn [snd]. apply IH; [exact Hinv1|exact Halive1|].
  intros Hnil. rewrite Hnil in Hlen1. symmetry in Hlen1.
  apply length_zero_iff_nil in Hlen1. contradiction.
Qed.

Section MainFacts.
Variable ping_fails : list mgo.Event -> mgo.Session -> bool.
Variable Load : string -> Env -> option Env.
Variable Dial_error : string -> option string.
Variable Atoi : string -> option Z.

(** The file [main] loads. *)
Abbreviation env_file env :=
  ("config/" ++ (if String.eqb (env "BOOKMARK_ENV") "" then "dev"
                 else env "BOOKMARK_ENV") ++ ".env")%string.

(** The pool size [main] asks for. *)
Abbreviation pool_size env :=
  (match Atoi (env "MONGODB_CONNECTION_POOL") with Some n => n | None => 10 end).

(** X15.  A clean run of [main]: if the environment file loads, the
    dial succeeds, the pool size (the parsed [MONGODB_CONNECTION_POOL],
    or 10 when it does not parse) is at least 1, and [NewPool] builds a
    pool of that size (its [make] does not panic), then [main] returns,
    however often the pinger ticked and whatever its pings answered.  By
    then every session obtained by [Copy] has been closed exactly once,
    the dialled session has been closed exactly once and last of all,
    and no session was used after it was closed. *)
Theorem X15_main_shuts_down_cleanly
  (env env' : Env) (ticks : nat) (w : mgo.World) (p0 : Pool) (w1 : mgo.World) :
  Load (env_file env) env = Some env' ->
  Dial_error (env' "MONGODB_HOST") = None ->
  1 <= pool_size env' ->
  NewPool nilLogger (mgo.next w) (pool_size env')
    (mgo.mkWorld (S (mgo.next w)) (mgo.trace w)) = (Ok p0, w1) ->
  exists w',
    main ping_fails Load Dial_error Atoi env ticks w = (Returns, w') /\
    disciplined (since w w') /\
    (forall src c, In (mgo.EvCopy src c) (since w w') ->
                   count_occ Nat.eq_dec (closed_by (since w w')) c = 1%nat) /\
    count_occ Nat.eq_dec (closed_by (since w w')) (mgo.next w) = 1%nat /\
    list.last (since w w') = Some (mgo.EvClose (mgo.next w)).
Proof.
  intros HLoad HDial Hpos E0.
  set (n := pool_size env') in *.
  destruct (NewPool_returns _ _ _ _ _ _ E0) as (Hn0 & Hfit & E).
  assert (Hmax : n <= int_max).
  { unfold ptr_size, maxAlloc in Hfit. unfold int_max. lia. }
  clear E0 p0 w1.
  set (d := mgo.next w) in *.
  set (wd := mgo.mkWorld (S d) (mgo.trace w)) in *.
  cbn [mgo.next mgo.trace wd] in E.
  set (p0 := mkPool Alive (replicate (Z.to_nat n) None) 0 (S d) false) in *.
  set (w1 := mgo.mkWorld (S (S d)) (mgo.trace w ++ [mgo.EvCopy d (S d)])) in *.
  pose proof (inv_NewPool _ _ _ _ _ _ Hmax E) as Hinv0.
  destruct (tidy_NewPool _ _ _ _ _ _ E) as [_ Ht0]. cbn [session p0] in Ht0.
  assert (Hout0 : outside d [mgo.EvCopy d (S d)] (p0, w1)).
  { unfold outside. cbn. rewrite held_replicate. repeat split; try lia; intros []. }
  assert (Hne0 : sessions (fst (p0, w1)) <> []).
  { cbn. intros Hnil. apply (f_equal (@length _)) in Hnil.
    rewrite length_replicate in Hnil. simpl in Hnil. lia. }
  set (st := run ping_fails nilLogger (replicate ticks ClockTick ++ [CallClose]) (p0, w1)).
  assert (Est : st = snd (Close (run ping_fails nilLogger (replicate ticks ClockTick) (p0, w1)))).
  { unfold st. rewrite run_app. reflexivity. }
  assert (Emain : main ping_fails Load Dial_error Atoi env ticks w =
                  (Returns, mgo.emit (mgo.EvClose d) (snd st))).
  { unfold main. rewrite HLoad, HDial. fold n d wd. rewrite E.
    rewrite (pinger_ticks ping_fails nilLogger ticks (p0, w1) Hinv0 eq_refl Hne0).
    rewrite <- Est. reflexivity. }
  destruct (run_tidy ping_fails nilLogger (replicate ticks ClockTick ++ [CallClose])
              (p0, w1) _ Hinv0 Ht0) as (l & El & Ht & Ho).
  fold st in El, Ht, Ho. specialize (Ho d Hout0).
  pose proof (inv_run ping_fails nilLogger (replicate ticks ClockTick ++ [CallClose])
                _ Hinv0) as Hinv.
  fold st in Hinv.
  assert (Hshut : shut (fst st)) by (rewrite Est; apply shut_after_Close).
  destruct st as [p wf] eqn:Hst. cbn [fst snd] in *.
  pose proof (tidy_close_outside _ p wf d Ht Ho) as (T1 & _ & _ & _ & _ & T6).
  cbn [fst snd] in T6.
  assert (Hsince : since w (mgo.emit (mgo.EvClose d) wf)
                   = ([mgo.EvCopy d (S d)] ++ l) ++ [mgo.EvClose d]).
  { apply since_extends. cbn [mgo.emit mgo.trace]. rewrite El. cbn [w1 mgo.trace].
    rewrite <- !app_assoc. reflexivity. }
  exists (mgo.emit (mgo.EvClose d) wf). split; [exact Emain|].
  rewrite Hsince.
  destruct (disciplined_from_NoDup _ _ T1) as [Hnd _].
  destruct Hinv as (_ & _ & Hcl). destruct Hshut as [Hc _].
  destruct (Hcl Hc) as [Hnil _]. cbn [fst] in *.
  split; [exact T1|]. split; [|split].
  - intros src c Hin. apply NoDup_count_occ'; [exact Hnd|].
    assert (Hcp : In c (copied_by (([mgo.EvCopy d (S d)] ++ l) ++ [mgo.EvClose d]))).
    { apply In_copied_by. exists src. exact Hin. }
    destruct (T6 c Hcp) as [[_ H]|[H|H]].
    + congruence.
    + rewrite (all_nil_eq _ Hnil), held_replicate in H. destruct H.
    + exact H.
  - apply NoDup_count_occ'; [exact Hnd|]. rewrite closed_by_app.
    apply in_or_app. right. left. reflexivity.
  - apply last_snoc.
Qed.

(** X16.  A negative pool size: if the environment file loads, the dial
    succeeds and [MONGODB_CONNECTION_POOL] parses to a negative number,
    [main] panics in [NewPool], out of [make]; the deferred [Close] of the
    dialled session still runs, and nothing else happens to any
    session. *)
Theorem X16_main_with_negative_pool_size
  (env env' : Env) (ticks : nat) (w : mgo.World) (n : Z) :
  Load (env_file env) env = Some env' ->
  Dial_error (env' "MONGODB_HOST") = None ->
  Atoi (env' "MONGODB_CONNECTION_POOL") = Some n ->
  n < 0 ->
  main ping_fails Load Dial_error Atoi env ticks w =
    (Panics MakesliceLenOutOfRange,
     mgo.mkWorld (S (mgo.next w)) (mgo.trace w ++ [mgo.EvClose (mgo.next w)])).
Proof.
  intros HLoad HDial HAtoi Hn. unfold main. rewrite HLoad, HDial, HAtoi.
  rewrite NewPool_negative by exact Hn. reflexivity.
Qed.

(** X19.  A pool size [make] refuses: if the environment file loads,
    the dial succeeds and [MONGODB_CONNECTION_POOL] parses to a number
    whose slice of pointers would exceed the allocator's limit (more
    than 2^45 slots, the largest [int] included), [main] panics in
    [NewPool], out of [make], exactly as for a negative size: the
    deferred [Close] of the dialled session runs and nothing else
    happens to any session. *)
Theorem X19_main_with_oversized_pool
  (env env' : Env) (ticks : nat) (w : mgo.World) (n : Z) :
  Load (env_file env) env = Some env' ->
  Dial_error (env' "MONGODB_HOST") = None ->
  Atoi (env' "MONGODB_CONNECTION_POOL") = Some n ->
  maxAlloc < n * ptr_size ->
  main ping_fails Load Dial_error Atoi env ticks w =
    (Panics MakesliceLenOutOfRange,
     mgo.mkWorld (S (mgo.next w)) (mgo.trace w ++ [mgo.EvClose (mgo.next w)])).
Proof.
  intros HLoad HDial HAtoi Hn. unfold main. rewrite HLoad, HDial, HAtoi.
  rewrite NewPool_too_long by exact Hn. reflexivity.
Qed.

(** X17.  A pool size of 0: if the environment file loads, the dial
    succeeds and [MONGODB_CONNECTION_POOL] parses to 0, then [main]
    returns only if the pinger's timer never fired; if it fired, the
    process panics with index 0 out of range of an empty slice, with the
    base copy and the dialled session left open. *)
Theorem X17_main_with_pool_size_zero
  (env env' : Env) (ticks : nat) (w : mgo.World) :
  Load (env_file env) env = Some env' ->
  Dial_error (env' "MONGODB_HOST") = None ->
  Atoi (env' "MONGODB_CONNECTION_POOL") = Some 0 ->
  main ping_fails Load Dial_error Atoi env ticks w =
    match ticks with
    | O =>
        (Returns,
         mgo.mkWorld (S (S (mgo.next w)))
           (mgo.trace w ++ [mgo.EvCopy (mgo.next w) (S (mgo.next w));
                            mgo.EvClose (S (mgo.next w));
                            mgo.EvClose (mgo.next w)]))
    | S _ =>
        (Panics (IndexOutOfRange 0 0),
         mgo.mkWorld (S (S (mgo.next w)))
           (mgo.trace w ++ [mgo.EvCopy (mgo.next w) (S (mgo.next w))]))
    end.
Proof.
  intros HLoad HDial HAtoi. unfold main. rewrite HLoad, HDial, HAtoi.
  rewrite (NewPool_ok nilLogger _ 0 _) by fits.
  cbn [Z.to_nat replicate mgo.next mgo.trace].
  destruct ticks as [|k].
  - cbn [replicate pinger]. unfold ret. cbn [snd].
    rewrite Close_open by reflexivity.
    cbn. unfold mgo.emit. cbn. rewrite <- !app_assoc. reflexivity.
  - cbn [replicate pinger]. unfold bind at 1.
    rewrite pinger_iteration_unfold.
    rewrite Session_no_slot;
      [reflexivity|reflexivity
      |right; cbn [sessions sessionIndex]; rewrite length_replicate; lia].
Qed.

End MainFacts.

(** ** How many sessions are open *)

Lemma length_held l : (length (held l) <= length l)%nat.
Proof.
  induction l as [|[c|] l IH]; [reflexivity| |].
  - change (held (Some c :: l)) with (c :: held l). simpl. lia.
  - change (held (None :: l)) with (held l). simpl. lia.
Qed.

(** X18.  The pool keeps at most [maxSessions + 1] copied sessions open:
    in every reachable state, a session obtained by [Copy] since the pool
    was built and not closed since is the base session or sits in a slot,
    and the slots hold at most [maxSessions] sessions. *)
Theorem X18_open_copies_are_bounded
  (ping_fails : list mgo.Event -> mgo.Session -> bool)
  (logger0 : Logger) (s : mgo.Session) (maxSessions : Z) (w0 : mgo.World)
  (p0 : Pool) (w1 : mgo.World) (cs : list Call) :
  is_int maxSessions ->
  NewPool logger0 s maxSessions w0 = (Ok p0, w1) ->
  let st := run ping_fails logger0 cs (p0, w1) in
  Z.of_nat (length (held (sessions (fst st)))) <= maxSessions /\
  forall src c,
    In (mgo.EvCopy src c) (since w0 (snd st)) ->
    ~ In (mgo.EvClose c) (since w0 (snd st)) ->
    c = session (fst st) \/ In c (held (sessions (fst st))).
Proof.
  intros [_ Hmax] E st.
  destruct (tidy_reachable ping_fails logger0 s maxSessions w0 p0 w1 cs Hmax E)
    as [_ (_ & _ & _ & _ & _ & T6)].
  fold st in T6. split.
  - pose proof (length_held (sessions (fst st))) as Hle.
    pose proof (length_run ping_fails logger0 cs (p0, w1) (inv_NewPool _ _ _ _ _ _ Hmax E))
      as Hlen.
    fold st in Hlen. destruct (length_NewPool _ _ _ _ _ _ E) as (Hn & Hlen0 & _).
    cbn [fst] in Hlen. lia.
  - intros src c Hin Hopen.
    destruct (T6 c (proj2 (In_copied_by _ _) (ex_intro _ src Hin))) as [[H _]|[H|H]].
    + left. exact H.
    + right. exact H.
    + exfalso. apply Hopen. apply In_closed_by. exact H.
Qed.

(** ** The further properties at concrete pools *)

Lemma NewPool_fresh0 : NewPool nilLogger 0%nat 0 dialled = (Ok (fst fresh0), snd fresh0).
Proof. reflexivity. Defined.

Lemma X1_Session_panic_changes_nothing_witness :
  fst (Session never_fails nullLogger (snd (Close fresh3)))
  = Panicked (PanicString "Session called on closed Pool") /\
  snd (Session never_fails nullLogger (snd (Close fresh3))) = snd (Close fresh3).
Proof.
  assert (H : fst (Session never_fails nullLogger (snd (Close fresh3)))
              = Panicked (PanicString "Session called on closed Pool"))
    by (vm_compute; reflexivity).
  split; [exact H|].
  exact (proj1 (X1_Session_panic_changes_nothing never_fails nullLogger
                  (snd (Close fresh3)) _ H)).
Defined.

Lemma X4_slice_length_is_fixed_witness :
  is_int 3 /\
  NewPool nilLogger 0%nat 3 dialled = (Ok (fst fresh3), snd fresh3) /\
  Z.of_nat (length (sessions (fst (run always_fails nilLogger
              [CallSession nullLogger; ClockTick; CallReset; CallClose] fresh3)))) = 3.
Proof.
  split; [exact is_int_3|]. split; [exact NewPool_fresh3|].
  exact (X4_slice_length_is_fixed always_fails nilLogger 0%nat 3 dialled
           (fst fresh3) (snd fresh3)
           [CallSession nullLogger; ClockTick; CallReset; CallClose]
           is_int_3 NewPool_fresh3).
Defined.

Lemma X5_cursor_stays_in_range_witness :
  1 <= 3 /\ is_int 3 /\
  NewPool nilLogger 0%nat 3 dialled = (Ok (fst fresh3), snd fresh3) /\
  0 <= sessionIndex (fst (run always_fails nilLogger
         [CallSession nullLogger; ClockTick; CallReset; CallClose] fresh3)) < 3.
Proof.
  assert (H1 : 1 <= 3) by lia.
  split; [exact H1|]. split; [exact is_int_3|]. split; [exact NewPool_fresh3|].
  exact (X5_cursor_stays_in_range always_fails nilLogger 0%nat 3 dialled
           (fst fresh3) (snd fresh3)
           [CallSession nullLogger; ClockTick; CallReset; CallClose]
           H1 is_int_3 NewPool_fresh3).
Defined.

Lemma X7_Close_of_open_pool_witness :
  closed (fst fresh3) = false /\
  Close fresh3 =
    (Ok tt,
     (mkPool Dead [None; None; None] 0 1%nat true,
      mgo.mkWorld 2%nat [mgo.EvCopy 0%nat 1%nat; mgo.EvClose 1%nat])).
Proof.
  assert (Hc : closed (fst fresh3) = false) by reflexivity.
  split; [exact Hc|].
  exact (X7_Close_of_open_pool (fst fresh3) (snd fresh3) Hc).
Defined.

Lemma X8_pinger_never_panics_witness :
  1 <= 3 /\ is_int 3 /\
  NewPool nilLogger 0%nat 3 dialled = (Ok (fst fresh3), snd fresh3) /\
  tomb (fst (run always_fails nilLogger [] fresh3)) = Alive /\
  exists r st',
    pinger always_fails [ClockCase; ClockCase; DyingCase] nullLogger fresh3 = (Ok r, st') /\
    r = Returned.
Proof.
  assert (H1 : 1 <= 3) by lia.
  assert (Ha : tomb (fst (run always_fails nilLogger [] fresh3)) = Alive) by reflexivity.
  split; [exact H1|]. split; [exact is_int_3|]. split; [exact NewPool_fresh3|].
  split; [exact Ha|].
  destruct (X8_pinger_never_panics always_fails nilLogger 0%nat 3 dialled
              (fst fresh3) (snd fresh3) [] nullLogger [ClockCase; ClockCase; DyingCase]
              H1 is_int_3 NewPool_fresh3 Ha) as (r & st' & E & Hr & _).
  exists r, st'. split; [exact E|]. apply Hr. right. right. left. reflexivity.
Defined.

Lemma X9_pinger_panics_on_empty_pool_witness :
  NewPool nilLogger 0%nat 0 dialled = (Ok (fst fresh0), snd fresh0) /\
  tomb (fst (run never_fails nilLogger [CallReset] fresh0)) = Alive /\
  pinger never_fails [ClockCase] nullLogger (run never_fails nilLogger [CallReset] fresh0)
  = (Panicked (IndexOutOfRange 0 0), run never_fails nilLogger [CallReset] fresh0).
Proof.
  assert (Ha : tomb (fst (run never_fails nilLogger [CallReset] fresh0)) = Alive)
    by reflexivity.
  split; [exact NewPool_fresh0|]. split; [exact Ha|].
  exact (X9_pinger_panics_on_empty_pool never_fails nilLogger 0%nat dialled
           (fst fresh0) (snd fresh0) [CallReset] nullLogger [] NewPool_fresh0 Ha).
Defined.

Lemma X10_Sessions_return_distinct_handles_witness :
  Sessions never_fails [nullLogger; nullLogger; nullLogger; nullLogger] fresh3
  = (Ok [3; 5; 7; 8]%nat,
     snd (Sessions never_fails [nullLogger; nullLogger; nullLogger; nullLogger] fresh3)) /\
  NoDup [3; 5; 7; 8]%nat.
Proof.
  assert (E : Sessions never_fails [nullLogger; nullLogger; nullLogger; nullLogger] fresh3
    = (Ok [3; 5; 7; 8]%nat,
       snd (Sessions never_fails [nullLogger; nullLogger; nullLogger; nullLogger] fresh3)))
    by (vm_compute; reflexivity).
  split; [exact E|].
  exact (proj1 (X10_Sessions_return_distinct_handles never_fails _ fresh3 _ _ E)).
Defined.

Lemma X11_slots_hold_distinct_copies_of_base_witness :
  is_int 3 /\
  NewPool nilLogger 0%nat 3 dialled = (Ok (fst fresh3), snd fresh3) /\
  session (fst (run never_fails nilLogger
                  [CallSession nullLogger; CallSession nullLogger] fresh3)) = 1%nat /\
  List.NoDup (held (sessions (fst (run never_fails nilLogger
                  [CallSession nullLogger; CallSession nullLogger] fresh3)))).
Proof.
  split; [exact is_int_3|]. split; [exact NewPool_fresh3|].
  destruct (X11_slots_hold_distinct_copies_of_base never_fails nilLogger 0%nat 3 dialled
              (fst fresh3) (snd fresh3) [CallSession nullLogger; CallSession nullLogger]
              is_int_3 NewPool_fresh3) as (Hb & Hnd & _).
  split; [exact Hb|exact Hnd].
Defined.

Lemma X12_no_use_after_close_witness :
  is_int 3 /\
  NewPool nilLogger 0%nat 3 dialled = (Ok (fst fresh3), snd fresh3) /\
  since dialled (snd (run never_fails nilLogger [CallSession nullLogger; CallReset] fresh3))
  = [mgo.EvCopy 0 1; mgo.EvCopy 1 2; mgo.EvPing 2 false]%nat
    ++ mgo.EvClone 2%nat 3%nat :: [mgo.EvClose 2%nat] /\
  subject (mgo.EvClone 2%nat 3%nat) = Some 2%nat /\
  ~ In (mgo.EvClose 2%nat) [mgo.EvCopy 0 1; mgo.EvCopy 1 2; mgo.EvPing 2 false]%nat.
Proof.
  assert (Hs : since dialled
      (snd (run never_fails nilLogger [CallSession nullLogger; CallReset] fresh3))
    = [mgo.EvCopy 0 1; mgo.EvCopy 1 2; mgo.EvPing 2 false]%nat
      ++ mgo.EvClone 2%nat 3%nat :: [mgo.EvClose 2%nat]) by (vm_compute; reflexivity).
  assert (Hx : subject (mgo.EvClone 2%nat 3%nat) = Some 2%nat) by reflexivity.
  split; [exact is_int_3|]. split; [exact NewPool_fresh3|].
  split; [exact Hs|]. split; [exact Hx|].
  exact (X12_no_use_after_close never_fails nilLogger 0%nat 3 dialled
           (fst fresh3) (snd fresh3) [CallSession nullLogger; CallReset]
           _ _ _ _ is_int_3 NewPool_fresh3 Hs Hx).
Defined.

Lemma X13_closed_pool_leaks_nothing_witness :
  is_int 3 /\
  NewPool nilLogger 0%nat 3 dialled = (Ok (fst fresh3), snd fresh3) /\
  closed (fst (run never_fails nilLogger [CallSession nullLogger; CallClose] fresh3)) = true /\
  In (mgo.EvCopy 1%nat 2%nat)
     (since dialled (snd (run never_fails nilLogger
                            [CallSession nullLogger; CallClose] fresh3))) /\
  count_occ Nat.eq_dec
    (closed_by (since dialled (snd (run never_fails nilLogger
                                      [CallSession nullLogger; CallClose] fresh3))))
    2%nat = 1%nat.
Proof.
  assert (Hc : closed (fst (run never_fails nilLogger
                              [CallSession nullLogger; CallClose] fresh3)) = true)
    by (vm_compute; reflexivity).
  assert (Hin : In (mgo.EvCopy 1%nat 2%nat)
     (since dialled (snd (run never_fails nilLogger
                            [CallSession nullLogger; CallClose] fresh3))))
    by (vm_compute; right; left; reflexivity).
  split; [exact is_int_3|]. split; [exact NewPool_fresh3|].
  split; [exact Hc|]. split; [exact Hin|].
  exact (X13_closed_pool_leaks_nothing never_fails nilLogger 0%nat 3 dialled
           (fst fresh3) (snd fresh3) [CallSession nullLogger; CallClose] 1%nat 2%nat
           is_int_3 NewPool_fresh3 Hc Hin).
Defined.

Lemma X14_handed_out_session_is_never_closed_witness :
  is_int 3 /\
  NewPool nilLogger 0%nat 3 dialled = (Ok (fst fresh3), snd fresh3) /\
  fst (Session always_fails nullLogger (run always_fails nilLogger [] fresh3)) = Ok 3%nat /\
  ~ In (mgo.EvClose 3%nat)
      (since dialled (snd (run always_fails nilLogger
         ([] ++ CallSession nullLogger :: [ClockTick; CallReset; CallClose]) fresh3))).
Proof.
  assert (Hh : fst (Session always_fails nullLogger (run always_fails nilLogger [] fresh3))
               = Ok 3%nat) by (vm_compute; reflexivity).
  split; [exact is_int_3|]. split; [exact NewPool_fresh3|]. split; [exact Hh|].
  exact (proj1 (X14_handed_out_session_is_never_closed always_fails nilLogger 0%nat 3
                  dialled (fst fresh3) (snd fresh3) [] nullLogger 3%nat
                  [ClockTick; CallReset; CallClose] is_int_3 NewPool_fresh3 Hh)).
Defined.

Lemma X15_main_shuts_down_cleanly_witness :
  load_nothing "config/dev.env" unset = Some unset /\
  dial_ok (unset "MONGODB_HOST") = None /\
  1 <= match atoi_error (unset "MONGODB_CONNECTION_POOL") with
       | Some n => n
       | None => 10
       end /\
  NewPool nilLogger 0%nat 10 dialled =
    (Ok (mkPool Alive (replicate 10 None) 0 1%nat false),
     mgo.mkWorld 2%nat [mgo.EvCopy 0%nat 1%nat]) /\
  exists w',
    main always_fails load_nothing dial_ok atoi_error unset 2 pristine = (Returns, w') /\
    list.last (since pristine w') = Some (mgo.EvClose 0%nat).
Proof.
  assert (HL : load_nothing "config/dev.env" unset = Some unset) by reflexivity.
  assert (HD : dial_ok (unset "MONGODB_HOST") = None) by reflexivity.
  assert (HA : 1 <= match atoi_error (unset "MONGODB_CONNECTION_POOL") with
                    | Some n => n
                    | None => 10
                    end) by (cbn; lia).
  assert (HN : NewPool nilLogger 0%nat 10 dialled =
    (Ok (mkPool Alive (replicate 10 None) 0 1%nat false),
     mgo.mkWorld 2%nat [mgo.EvCopy 0%nat 1%nat])) by reflexivity.
  split; [exact HL|]. split; [exact HD|]. split; [exact HA|]. split; [exact HN|].
  destruct (X15_main_shuts_down_cleanly always_fails load_nothing dial_ok atoi_error
              unset unset 2 pristine _ _ HL HD HA HN) as (w' & E & _ & _ & _ & Hlast).
  exists w'. split; [exact E|exact Hlast].
Defined.

Lemma X16_main_with_negative_pool_size_witness :
  load_nothing "config/dev.env" unset = Some unset /\
  dial_ok (unset "MONGODB_HOST") = None /\
  atoi_minus_1 (unset "MONGODB_CONNECTION_POOL") = Some (-1) /\
  -1 < 0 /\
  main never_fails load_nothing dial_ok atoi_minus_1 unset 0 pristine =
    (Panics MakesliceLenOutOfRange, mgo.mkWorld 1%nat [mgo.EvClose 0%nat]).
Proof.
  assert (HL : load_nothing "config/dev.env" unset = Some unset) by reflexivity.
  assert (HD : dial_ok (unset "MONGODB_HOST") = None) by reflexivity.
  assert (HA : atoi_minus_1 (unset "MONGODB_CONNECTION_POOL") = Some (-1)) by reflexivity.
  assert (Hn : -1 < 0) by lia.
  split; [exact HL|]. split; [exact HD|]. split; [exact HA|]. split; [exact Hn|].
  exact (X16_main_with_negative_pool_size never_fails load_nothing dial_ok atoi_minus_1
           unset unset 0 pristine (-1) HL HD HA Hn).
Defined.

Lemma X17_main_with_pool_size_zero_witness :
  load_nothing "config/dev.env" unset = Some unset /\
  dial_ok (unset "MONGODB_HOST") = None /\
  atoi_0 (unset "MONGODB_CONNECTION_POOL") = Some 0 /\
  main never_fails load_nothing dial_ok atoi_0 unset 1 pristine =
    (Panics (IndexOutOfRange 0 0), mgo.mkWorld 2%nat [mgo.EvCopy 0%nat 1%nat]).
Proof.
  assert (HL : load_nothing "config/dev.env" unset = Some unset) by reflexivity.
  assert (HD : dial_ok (unset "MONGODB_HOST") = None) by reflexivity.
  assert (HA : atoi_0 (unset "MONGODB_CONNECTION_POOL") = Some 0) by reflexivity.
  split; [exact HL|]. split; [exact HD|]. split; [exact HA|].
  exact (X17_main_with_pool_size_zero never_fails load_nothing dial_ok atoi_0
           unset unset 1 pristine HL HD HA).
Defined.

Lemma X18_open_copies_are_bounded_witness :
  is_int 3 /\
  NewPool nilLogger 0%nat 3 dialled = (Ok (fst fresh3), snd fresh3) /\
  Z.of_nat (length (held (sessions (fst (run never_fails nilLogger
      [CallSession nullLogger; CallSession nullLogger; CallReset; CallSession nullLogger]
      fresh3))))) <= 3.
Proof.
  split; [exact is_int_3|]. split; [exact NewPool_fresh3|].
  exact (proj1 (X18_open_copies_are_bounded never_fails nilLogger 0%nat 3 dialled
                  (fst fresh3) (snd fresh3)
                  [CallSession nullLogger; CallSession nullLogger; CallReset;
                   CallSession nullLogger] is_int_3 NewPool_fresh3)).
Defined.

(** ** The pinger's iteration among other callers *)



Section Among.
Variable ping_fails : list mgo.Event -> mgo.Session -> bool.
Variable logger0 : Logger.






End Among.




Lemma X19_main_with_oversized_pool_witness :
  load_nothing "config/dev.env" unset = Some unset /\
  dial_ok (unset "MONGODB_HOST") = None /\
  atoi_max_int (unset "MONGODB_CONNECTION_POOL") = Some 9223372036854775807 /\
  maxAlloc < 9223372036854775807 * ptr_size /\
  main never_fails load_nothing dial_ok atoi_max_int unset 0 pristine =
    (Panics MakesliceLenOutOfRange, mgo.mkWorld 1%nat [mgo.EvClose 0%nat]).
Proof.
  assert (HL : load_nothing "config/dev.env" unset = Some unset) by reflexivity.
  assert (HD : dial_ok (unset "MONGODB_HOST") = None) by reflexivity.
  assert (HA : atoi_max_int (unset "MONGODB_CONNECTION_POOL")
               = Some 9223372036854775807) by reflexivity.
  assert (Hn : maxAlloc < 9223372036854775807 * ptr_size)
    by (unfold maxAlloc, ptr_size; lia).
  split; [exact HL|]. split; [exact HD|]. split; [exact HA|]. split; [exact Hn|].
  exact (X19_main_with_oversized_pool never_fails load_nothing dial_ok atoi_max_int
           unset unset 0 pristine 9223372036854775807 HL HD HA Hn).
Defined.
